(** * Gemini-3-Inspector: detection grouping, overlay geometry, selection
      and prompt history

    A shallow embedding of the pure parts of
    [src/components/DetectionResult.tsx] and [src/App.tsx].

    Conventions of the embedding.
    - Where the code does arithmetic on a JavaScript number, in the
      coordinate normalizer and in the percentage of a confidence, the
      number is an IEEE 754 binary64 value, a [float], and the operations
      are the ones of [PrimFloat]: correctly rounded, with infinities,
      signed zeros and one NaN.
    - Where the code only compares a number or uses it as a key, for an
      image index and for the tier of a confidence, the number is a
      [number]: [NaN] or the exact rational value.
    - An entry of a box, which may be any scalar the model sent, is a
      [jsval]; a stored history or a response once parsed is a [json].
    - A JavaScript string is a [string]; every character stands for one code
      unit below 256.
    - [Map<number, Detection[]>] is a [gmap] keyed by [number]: the
      component only ever reads the map by key. *)

From Stdlib Require Import Floats Uint63.
From Stdlib Require Import QArith Qcanon ZArith Ascii String List Lia Lqa.
From stdpp Require Import base option list countable gmap strings numbers pretty.

#[local] Set Warnings "-register-all,-inexact-float".

Local Open Scope Z_scope.

(** ** Numbers *)

Inductive number : Type :=
  | NaN
  | Num (q : Qc).

Definition ofZ (z : Z) : number := Num (Q2Qc (inject_Z z)).
Definition ofNat (n : nat) : number := ofZ (Z.of_nat n).
(** The decimal literal [m / 10^e], e.g. [1.5] is [decimal 15 1]. *)
Definition decimal (m : Z) (e : nat) : number :=
  Num (Q2Qc (m # Pos.of_nat (10 ^ e))).

Definition num_sub (x y : number) : number :=
  match x, y with
  | Num a, Num b => Num (a - b)%Qc
  | _, _ => NaN
  end.

(** Relational operators: any comparison with [NaN] is [false]. *)
Definition num_le (x y : number) : bool :=
  match x, y with
  | Num a, Num b => bool_decide (a ≤ b)%Qc
  | _, _ => false
  end.

Definition num_lt (x y : number) : bool :=
  match x, y with
  | Num a, Num b => bool_decide (a < b)%Qc
  | _, _ => false
  end.

Definition num_ge (x y : number) : bool := num_le y x.

Definition isNaN (x : number) : bool :=
  match x with NaN => true | Num _ => false end.

(** ** Binary64 values *)

(** Two binary64 values are equal when [PrimFloat.Leibniz.eqb] says so. *)
Global Instance float_eq_dec : EqDecision float.
Proof.
  intros x y. destruct (PrimFloat.Leibniz.eqb x y) eqn:E.
  - left. by apply Leibniz.eqb_spec.
  - right. intros H%Leibniz.eqb_spec. congruence.
Defined.

(** The binary64 value of a whole number from [0] to [2^53], which is
    exact. *)
Definition ofInt (k : Z) : float := of_uint63 (Uint63.of_Z k).

(** The binary64 value the decimal [k / 1000] denotes, e.g. [0.1] for
    [k = 100]: the division is correctly rounded, as is the reading of a
    decimal literal. *)
Definition thousandth (k : Z) : float := (ofInt k / 1000)%float.

(** [Math.abs(x - y) <= eps] *)
Definition differAtMost (eps x y : float) : bool :=
  (abs (x - y) <=? eps)%float.

(** ** Loosely typed scalars *)

Inductive jsval : Type :=
  | VUndefined
  | VNull
  | VBool (b : bool)
  | VNum (x : float)
  | VStr (s : string).

Global Instance number_eq_dec : EqDecision number.
Proof. solve_decision. Defined.

Global Instance jsval_eq_dec : EqDecision jsval.
Proof. solve_decision. Defined.

Global Instance number_countable : Countable number.
Proof.
  refine (inj_countable' (fun x => match x with NaN => None | Num q => Some q end)
                         (fun o => match o with None => NaN | Some q => Num q end) _).
  by intros [].
Defined.

(** ** Strings: [trim] and [parseInt] *)

(** White space and line terminators among the code units below 256:
    TAB, LF, VT, FF, CR, SP and NBSP. *)
Definition isStrWhiteSpace (c : ascii) : bool :=
  let n := N_of_ascii c in
  ((9 <=? n) && (n <=? 13) || (n =? 32) || (n =? 160))%N.

Definition isEmpty (s : string) : bool :=
  match s with EmptyString => true | String _ _ => false end.

Fixpoint trimStart (s : string) : string :=
  match s with
  | EmptyString => EmptyString
  | String c s' => if isStrWhiteSpace c then trimStart s' else s
  end.

Fixpoint trimEnd (s : string) : string :=
  match s with
  | EmptyString => EmptyString
  | String c s' =>
      let t := trimEnd s' in
      if isStrWhiteSpace c && isEmpty t then EmptyString else String c t
  end.

Definition trim (s : string) : string := trimEnd (trimStart s).

(** The value of a code unit as a digit: [0-9], [a-z] and [A-Z]. *)
Definition digitValue (c : ascii) : option N :=
  let n := N_of_ascii c in
  if ((48 <=? n) && (n <=? 57))%N then Some (n - 48)%N
  else if ((97 <=? n) && (n <=? 122))%N then Some (n - 87)%N
  else if ((65 <=? n) && (n <=? 90))%N then Some (n - 55)%N
  else None.

(** The longest prefix of radix-[R] digits, read as an integer; [acc] is
    [None] as long as no digit was read. *)
Fixpoint parseDigits (R : N) (s : string) (acc : option N) : option N :=
  match s with
  | EmptyString => acc
  | String c s' =>
      match digitValue c with
      | Some d =>
          if (d <? R)%N
          then parseDigits R s' (Some (R * default 0%N acc + d)%N)
          else acc
      | None => acc
      end
  end.

(** [parseInt(s)] with no radix argument. *)
Definition parseInt (s : string) : number :=
  let str := trimStart s in
  let '(sign, str) :=
    match str with
    | String "-" r => (-1, r)
    | String "+" r => (1, r)
    | _ => (1, str)
    end in
  let '(R, str) :=
    match str with
    | String "0" (String "x" r) => (16%N, r)
    | String "0" (String "X" r) => (16%N, r)
    | _ => (10%N, str)
    end in
  match parseDigits R str None with
  | None => NaN
  | Some mathInt => ofZ (sign * Z.of_N mathInt)
  end.

(** ** Detections and images ([src/types.ts]) *)

(** [imageIndex] is declared a number and tolerated as a string.  A value
    of another type (null, a boolean, an array) is outside the declared
    type and outside this embedding: the code would coerce it in the range
    check and use it, uncoerced, as a key that is no number. *)
Inductive index_field : Type :=
  | IdxNum (x : number)
  | IdxStr (s : string).

(** [box_2d] is declared a 4-tuple of numbers; the normalizer coerces each
    entry, so the entries are kept loosely typed.  [label] is the raw
    string: nothing checks it against the three declared literals. *)
Record Detection : Type := mkDetection {
  label : string;
  confidence : number;
  description : string;
  imageIndex : index_field;
  box_2d : jsval * jsval * jsval * jsval
}.

(** The [File] handle of an uploaded image is opaque and left out. *)
Record UploadedImage : Type := mkUploadedImage {
  previewUrl : string;
  base64Data : string;
  mimeType : string
}.

Global Instance index_field_eq_dec : EqDecision index_field.
Proof. solve_decision. Defined.

Global Instance Detection_eq_dec : EqDecision Detection.
Proof. solve_decision. Defined.

(** ** Grouping, [detectionsByImage] *)

(** [typeof d.imageIndex === 'string' ? parseInt(d.imageIndex) : d.imageIndex] *)
Definition indexOf (d : Detection) : number :=
  match imageIndex d with
  | IdxStr s => parseInt s
  | IdxNum x => x
  end.

(** [idx >= 0 && idx < images.length] *)
Definition inRange (idx : number) (n : nat) : bool :=
  num_ge idx (ofZ 0) && num_lt idx (ofNat n).

(** [images.forEach((_, idx) => map.set(idx, []))] *)
Definition initGroups (n : nat) : gmap number (list Detection) :=
  foldl (fun map idx => <[ofNat idx := []]> map) ∅ (seq 0 n).

(** The body of [detections.forEach].  [map.get(idx)!.push(d)] mutates the
    array stored under [idx]; it is reached only after the key was
    ensured, where [alter] and the source agree. *)
Definition addDetection (n : nat) (map : gmap number (list Detection))
    (d : Detection) : gmap number (list Detection) :=
  let idx := indexOf d in
  if inRange idx n then
    let map := if bool_decide (is_Some (map !! idx)) then map
               else <[idx := []]> map in
    alter (fun arr => arr ++ [d]) idx map
  else map.

Definition detectionsByImage (detections : list Detection)
    (images : list UploadedImage) : gmap number (list Detection) :=
  foldl (addDetection (length images)) (initGroups (length images)) detections.

(** ** Selection *)

(** [selectedIndex] starts at [0] and is only ever set to [0] or to the
    position of a thumbnail, so it is a natural number. *)
Definition resolve (selectedIndex imageCount : nat) : nat :=
  if (imageCount <=? selectedIndex)%nat then 0%nat else selectedIndex.

(** The effect watching [images.length]: the stored index is reset when it
    points past the end. *)
Definition reconcile (selectedIndex imageCount : nat) : nat :=
  if (imageCount <=? selectedIndex)%nat then 0%nat else selectedIndex.

(** ** The coordinate normalizer, [getBoxStyle] *)

(** The style object: field [f] stands for the CSS string [`${f}%`]. *)
Record BoxStyle : Type := mkBoxStyle {
  top : float;
  left : float;
  width : float;
  height : float
}.

Section Coercion.

(** [Number(s)] on a string is the runtime's StringToNumber, which is
    not code of this repository. *)
Variable StringToNumber : string -> float.

Definition Number (v : jsval) : float :=
  match v with
  | VUndefined => nan
  | VNull => 0%float
  | VBool b => if b then 1%float else 0%float
  | VNum x => x
  | VStr s => StringToNumber s
  end.

(** [box] is the array once destructured by [let [ymin, xmin, ymax, xmax]
    = box], an entry the array does not have being [undefined]. *)
Definition getBoxStyle (box : jsval * jsval * jsval * jsval) : BoxStyle :=
  let '(ymin, xmin, ymax, xmax) := box in
  let ymin := Number ymin in
  let xmin := Number xmin in
  let ymax := Number ymax in
  let xmax := Number xmax in
  if ((ymin <=? 1.5) && (xmin <=? 1.5) && (ymax <=? 1.5) && (xmax <=? 1.5))%float
  then
    {| top := (ymin * 100)%float;
       left := (xmin * 100)%float;
       width := ((xmax - xmin) * 100)%float;
       height := ((ymax - ymin) * 100)%float |}
  else
    {| top := (ymin / 10)%float;
       left := (xmin / 10)%float;
       width := ((xmax - xmin) / 10)%float;
       height := ((ymax - ymin) / 10)%float |}.

(** What one render pass of [DetectionResult] derives before building
    markup; [None] is the component returning [null]. *)
Record View : Type := mkView {
  safeIndex : nat;
  currentImage : UploadedImage;
  currentDefects : list Detection;
  overlays : list BoxStyle
}.

Definition DetectionResult (selectedIndex : nat)
    (detections : list Detection) (images : list UploadedImage)
    : option View :=
  if (length images =? 0)%nat then None
  else
    let safeIndex := resolve selectedIndex (length images) in
    match images !! safeIndex with
    | None => None
    | Some currentImage =>
        let currentDefects :=
          default [] (detectionsByImage detections images !! ofNat safeIndex) in
        Some {| safeIndex := safeIndex;
                currentImage := currentImage;
                currentDefects := currentDefects;
                overlays := map (fun det => getBoxStyle (box_2d det))
                                currentDefects |}
    end.

End Coercion.

(** ** Exceptions and the external key-value store *)

(** The outcome of an expression that may throw; a thrown error is kept as
    its [message], if it has one. *)
Inductive completion (A : Type) : Type :=
  | Normal (a : A)
  | Throw (message : option string).
Arguments Normal {A} a.
Arguments Throw {A} message.

Global Instance completion_ret : MRet completion := fun A a => Normal a.
Global Instance completion_bind : MBind completion := fun A B k c =>
  match c with
  | Normal a => k a
  | Throw m => Throw m
  end.

(** [try { body } catch (e) { handler(e) }] *)
Definition tryCatch {A : Type} (body : completion A)
    (handler : option string -> A) : A :=
  match body with
  | Normal a => a
  | Throw m => handler m
  end.

(** [localStorage]: either the browser refuses access, and every call
    throws, or it holds finitely many string entries. *)
Inductive Storage : Type :=
  | StorageDenied
  | StorageOf (items : gmap string string).

Definition getItem (localStorage : Storage) (key : string)
    : completion (option string) :=
  match localStorage with
  | StorageDenied => Throw (Some "SecurityError")
  | StorageOf items => Normal (items !! key)
  end.

(** What [JSON.parse] returns. *)
Inductive json : Type :=
  | JNull
  | JBool (b : bool)
  | JNumber (x : number)
  | JString (s : string)
  | JArray (elements : list json)
  | JObject (members : list (string * json)).

(** [Array.isArray(v) && every entry is a string], with the entries. *)
Definition asStrings (v : json) : option (list string) :=
  match v with
  | JArray elements =>
      mapM (fun e => match e with JString s => Some s | _ => None end) elements
  | _ => None
  end.

(** ** Prompt fields and their history ([src/App.tsx]) *)

Definition MAX_HISTORY : nat := 10.

(** The initial state of [usePersistentString]:
    [localStorage.getItem(key) ?? defaultValue], guarded by try/catch. *)
Definition usePersistentString (localStorage : Storage)
    (key defaultValue : string) : string :=
  tryCatch (saved ← getItem localStorage key;
            mret (default defaultValue saved))
           (fun _ => defaultValue).

(** The state updater queued by [commit]; [currentValue.trim()] being empty
    returns before any update is queued. *)
Definition commit (currentValue : string) (prev : list string) : list string :=
  if isEmpty (trim currentValue) then prev
  else if (0 <? length prev)%nat && bool_decide (prev !! 0%nat = Some currentValue)
       then prev
       else take MAX_HISTORY (currentValue :: prev).

(** ** A run ([handleSubmit]) *)

Inductive SendingStatus : Type := IDLE | LOADING | SUCCESS | ERROR.
Inductive ViewMode : Type := visual | raw | debug.

Record PromptField : Type := mkPromptField {
  value : string;
  history : list string
}.

(** The state of [App] that a run reads or writes; the model settings
    and the debug payload are left out. *)
Record AppState : Type := mkAppState {
  role : PromptField;
  criteria : PromptField;
  attributes : PromptField;
  format : PromptField;
  images : list UploadedImage;
  status : SendingStatus;
  responseText : string;
  errorMsg : option string;
  parsedDetections : option (list json);
  viewMode : ViewMode
}.

Definition nl : string := String (ascii_of_nat 10) EmptyString.

Definition constructFullPrompt (st : AppState) : string :=
  "## ROLE & OBJECTIVE" ++ nl ++ value (role st) ++ nl ++ nl ++
  "## VISUAL DEFECT CRITERIA" ++ nl ++ value (criteria st) ++ nl ++ nl ++
  "## ATTRIBUTE DEFINITIONS" ++ nl ++ value (attributes st) ++ nl ++ nl ++
  "## OUTPUT FORMAT INSTRUCTIONS" ++ nl ++ value (format st).

Definition commitField (f : PromptField) : PromptField :=
  {| value := value f; history := commit (value f) (history f) |}.

(** [handleSubmit] up to the [await]: the four commits, then
    [setStatus(LOADING)], [setResponseText("")],
    [setParsedDetections(null)], [setErrorMsg(null)],
    [setViewMode('visual')]. *)
Definition beginRun (st : AppState) : AppState :=
  {| role := commitField (role st);
     criteria := commitField (criteria st);
     attributes := commitField (attributes st);
     format := commitField (format st);
     images := images st;
     status := LOADING;
     responseText := "";
     errorMsg := None;
     parsedDetections := None;
     viewMode := visual |}.

Section Runtime.

(** [JSON.parse] belongs to the runtime, not to this repository; it
    either returns a value or throws a SyntaxError. *)
Variable JSON_parse : string -> completion json.

(** The initial state of [useHistory]:
    [saved ? JSON.parse(saved) : []], guarded by try/catch.  The state is
    declared [string[]] but holds whatever [JSON.parse] returned. *)
Definition useHistory (localStorage : Storage) (key : string) : json :=
  tryCatch (saved ← getItem localStorage (key ++ "_history");
            match saved with
            | Some text => if isEmpty text then mret (JArray [])
                           else JSON_parse text
            | None => mret (JArray [])
            end)
           (fun _ => JArray []).

(** The sibling reader of the same entry: it checks [Array.isArray] and
    falls back to the empty string. *)
Definition getLatestFromHistory (localStorage : Storage) (key : string)
    : json :=
  tryCatch (historyJson ← getItem localStorage (key ++ "_history");
            match historyJson with
            | Some text =>
                if isEmpty text then mret (JString "")
                else
                  history ← JSON_parse text;
                  match history with
                  | JArray (first :: _) => mret first
                  | _ => mret (JString "")
                  end
            | None => mret (JString "")
            end)
           (fun _ => JString "").

(** The inner try/catch: [JSON.parse(text)], then an array, or an object
    whose [items] is an array, is taken as the detections.  Reading
    [json.items] off [null] throws and lands in the same catch. *)
Definition parseResponse (text : string) : option (list json) * ViewMode :=
  tryCatch (parsed ← JSON_parse text;
            match parsed with
            | JArray elements => mret (Some elements, visual)
            | JObject members =>
                match snd <$> List.find (fun m => String.eqb (fst m) "items")
                                        (rev members) with
                | Some (JArray elements) => mret (Some elements, visual)
                | _ => mret (None, raw)
                end
            | JNull => Throw (Some "TypeError")
            | _ => mret (None, raw)
            end)
           (fun _ => (None, raw)).

(** [handleSubmit] after the [await]: [outcome] is what
    [generateContentWithGemini] resolved to or rejected with. *)
Definition finishRun (outcome : completion string) (st : AppState)
    : AppState :=
  match outcome with
  | Normal text =>
      let '(detections, mode) := parseResponse text in
      {| role := role st; criteria := criteria st;
         attributes := attributes st; format := format st;
         images := images st;
         status := SUCCESS;
         responseText := text;
         errorMsg := errorMsg st;
         parsedDetections :=
           match detections with Some _ => detections
                               | None => parsedDetections st end;
         viewMode := mode |}
  | Throw message =>
      {| role := role st; criteria := criteria st;
         attributes := attributes st; format := format st;
         images := images st;
         status := ERROR;
         responseText := responseText st;
         errorMsg :=
           Some (match message with
                 | Some m => if isEmpty m then "Something went wrong." else m
                 | None => "Something went wrong."
                 end);
         parsedDetections := parsedDetections st;
         viewMode := viewMode st |}
  end.

Definition handleSubmit (outcome : completion string) (st : AppState)
    : AppState :=
  if isEmpty (trim (constructFullPrompt st)) then
    {| role := role st; criteria := criteria st;
       attributes := attributes st; format := format st;
       images := images st;
       status := status st;
       responseText := responseText st;
       errorMsg := Some "Prompt is empty.";
       parsedDetections := parsedDetections st;
       viewMode := viewMode st |}
  else finishRun outcome (beginRun st).

End Runtime.



(** * The rest of the two components *)

(** ** Confidence display ([DetectionResult.tsx]) *)

Definition getConfidenceColor (confidence : number) : string :=
  if num_ge confidence (decimal 85 2)
  then "text-red-400 border-red-500/50 bg-red-500/10 shadow-[0_0_10px_rgba(248,113,113,0.3)]"
  else if num_ge confidence (decimal 6 1)
  then "text-orange-400 border-orange-500/50 bg-orange-500/10"
  else "text-yellow-400 border-yellow-500/50 bg-yellow-500/10".

Definition getConfidenceBorder (confidence : number) : string :=
  if num_ge confidence (decimal 85 2) then "border-red-500"
  else if num_ge confidence (decimal 6 1) then "border-orange-500"
  else "border-yellow-500".

Definition getConfidenceBadge (confidence : number) : string :=
  if num_ge confidence (decimal 85 2) then "bg-red-500 text-white"
  else if num_ge confidence (decimal 6 1) then "bg-orange-500 text-white"
  else "bg-yellow-500 text-white".

Definition getConfidenceLabel (score : number) : string :=
  if num_ge score (decimal 85 2) then "HIGH CONFIDENCE"
  else if num_ge score (decimal 6 1) then "MEDIUM CONFIDENCE"
  else "LOW CONFIDENCE".

(** [Math.round]: the integer nearest to the exact value of [x], a tie
    going up.  A value with no fractional part, an infinity, a zero and
    NaN are returned as they are, and a result of zero keeps the sign of
    [x].  The exact value of a finite [x] is [n * 2^e] for the mantissa
    [n] and the exponent [e] that [Prim2SF] gives. *)
Definition Math_round (x : float) : float :=
  match Prim2SF x with
  | S754_finite s m e =>
      if (0 <=? e)%Z then x
      else
        let n := if s then Z.neg m else Z.pos m in
        let z := ((2 * n + 2 ^ (- e)) / 2 ^ (1 - e))%Z in
        if s then (- ofInt (- z))%float else ofInt z
  | _ => x
  end.

(** [`${Math.round(score * 100)}%`], the number before the percent sign. *)
Definition formatConfidence (score : float) : float :=
  Math_round (score * 100)%float.

(** ** Thumbnails and hovering ([DetectionResult.tsx]) *)

(** [detectionsByImage.get(idx)?.length || 0] *)
Definition defectCount (detections : list Detection)
    (images : list UploadedImage) (idx : nat) : nat :=
  length (default [] (detectionsByImage detections images !! ofNat idx)).

(** [`${safeIndex}-${dIdx}`]; a position prints as its decimal digits. *)
Definition uniqueId (safeIndex dIdx : nat) : string :=
  pretty safeIndex ++ "-" ++ pretty dIdx.

(** [hoveredId === uniqueId], [hoveredId] being [null] or a string. *)
Definition isHovered (hoveredId : option string) (safeIndex dIdx : nat) : bool :=
  bool_decide (hoveredId = Some (uniqueId safeIndex dIdx)).

(** The number of records held by all groups together. *)
Definition groupedCount (map : gmap number (list Detection)) : nat :=
  map_fold (fun _ arr total => (length arr + total)%nat) 0%nat map.

(** ** Images ([App.tsx]) *)

(** [prev.filter((_, i) => i !== index)], [i] counting from [from]. *)
Fixpoint filterOutIndex {A : Type} (from index : nat) (prev : list A) : list A :=
  match prev with
  | [] => []
  | x :: prev' =>
      if (from =? index)%nat then filterOutIndex (S from) index prev'
      else x :: filterOutIndex (S from) index prev'
  end.

Definition handleRemoveImage (index : nat) (prev : list UploadedImage)
    : list UploadedImage :=
  filterOutIndex 0 index prev.

(** [Promise.all]: the results in order, or the first rejection. *)
Fixpoint Promise_all {A : Type} (promises : list (completion A))
    : completion (list A) :=
  match promises with
  | [] => Normal []
  | Normal a :: rest =>
      match Promise_all rest with
      | Normal others => Normal (a :: others)
      | Throw m => Throw m
      end
  | Throw m :: _ => Throw m
  end.

(** [handleFileChange] once the readers have settled: [processed] holds
    what [processFile] gave for each chosen file.  With no file chosen
    nothing happens. *)
Definition handleFileChange (processed : list (completion UploadedImage))
    (st : AppState) : AppState :=
  if (0 <? length processed)%nat then
    match Promise_all processed with
    | Normal processedImages =>
        {| role := role st; criteria := criteria st;
           attributes := attributes st; format := format st;
           images := images st ++ processedImages;
           status := status st;
           responseText := responseText st;
           errorMsg := errorMsg st;
           parsedDetections := parsedDetections st;
           viewMode := viewMode st |}
    | Throw _ =>
        {| role := role st; criteria := criteria st;
           attributes := attributes st; format := format st;
           images := images st;
           status := status st;
           responseText := responseText st;
           errorMsg := Some "Failed to process some images.";
           parsedDetections := parsedDetections st;
           viewMode := viewMode st |}
    end
  else st.

(** ** The prompt sections ([App.tsx]) *)

Definition STORAGE_KEYS_ROLE : string := "gemini_analyzer_role".
Definition STORAGE_KEYS_CRITERIA : string := "gemini_analyzer_criteria".
Definition STORAGE_KEYS_ATTRIBUTES : string := "gemini_analyzer_attributes".
Definition STORAGE_KEYS_FORMAT : string := "gemini_analyzer_format".

Definition STORAGE_KEYS : list string :=
  [STORAGE_KEYS_ROLE; STORAGE_KEYS_CRITERIA; STORAGE_KEYS_ATTRIBUTES;
   STORAGE_KEYS_FORMAT].

(** [localStorage.setItem]; running out of quota is not modelled. *)
Definition setItem (localStorage : Storage) (key value : string)
    : completion Storage :=
  match localStorage with
  | StorageDenied => Throw (Some "SecurityError")
  | StorageOf items => Normal (StorageOf (<[key := value]> items))
  end.

(** The effect of [usePersistentString]: the value is written on every
    change, a failure only being logged. *)
Definition persistString (localStorage : Storage) (key value : string) : Storage :=
  tryCatch (setItem localStorage key value) (fun _ => localStorage).

(** A history that is the list of strings it is declared to be. *)
Definition ofStrings (history : list string) : json :=
  JArray (JString <$> history).

Section Persist.

(** [JSON.stringify] belongs to the runtime as well. *)
Variable JSON_stringify : json -> string.

(** The effect of [useHistory]: the history is written on every change. *)
Definition persistHistory (localStorage : Storage) (key : string)
    (history : json) : Storage :=
  tryCatch (setItem localStorage (key ++ "_history") (JSON_stringify history))
           (fun _ => localStorage).

End Persist.

(** The collapsed header: [{value.replace(/\n/g, ' ').substring(0, 30)}...]. *)
Fixpoint replaceNewlines (s : string) : string :=
  match s with
  | EmptyString => EmptyString
  | String c s' =>
      String (if Ascii.eqb c (ascii_of_nat 10) then " "%char else c)
             (replaceNewlines s')
  end.

Fixpoint substring0 (n : nat) (s : string) : string :=
  match n, s with
  | S n', String c s' => String c (substring0 n' s')
  | _, _ => EmptyString
  end.

(** The text beside a collapsed section: the JSX puts a literal [...]
    after the expression. *)
Definition collapsedPreview (value : string) : string :=
  substring0 30 (replaceNewlines value) ++ "...".

(** The number shown as [v{history.length - idx}] beside entry [idx]. *)
Definition versionNumber (history : list string) (idx : nat) : number :=
  num_sub (ofNat (length history)) (ofNat idx).


(** ** The keyboard shortcut ([App.tsx]) *)

(** [handleKeyDown] on a prompt field: [key] is [e.key], and [outcome] is
    what the service gives if the run is started. *)
Definition handleKeyDown (JSON_parse : string -> completion json)
    (key : string) (metaKey ctrlKey : bool) (outcome : completion string)
    (st : AppState) : AppState :=
  if String.eqb key "Enter" && (metaKey || ctrlKey)
  then handleSubmit JSON_parse outcome st
  else st.

(** ** The request ([services/geminiService.ts], [prepareDebugInfo]) *)

Inductive Part : Type :=
  | InlineData (mimeType data : string)
  | TextPart (text : string).

(** The [parts] the service sends: one per image, then the prompt. *)
Definition requestParts (prompt : string) (images : list UploadedImage)
    : list Part :=
  map (fun img => InlineData (mimeType img) (base64Data img)) images
  ++ [TextPart prompt].

(** The [parts] of the debug payload built by [prepareDebugInfo]. *)
Definition debugParts (fullPrompt : string) (images : list UploadedImage)
    : list Part :=
  map (fun img => InlineData (mimeType img)
                    "[BASE64_IMAGE_DATA_OMITTED_FOR_DEBUG_VIEW]") images
  ++ [TextPart fullPrompt].

(** How the body of the [try] in [generateContentWithGemini] ended: with
    a response, whose [text] may be missing, or by throwing.  What is
    thrown is [undefined] or [null], or any other value, of which
    [message] is [error.message] when that is truthy. *)
Inductive sdkOutcome : Type :=
  | Resolved (text : option string)
  | RejectedNullish
  | Rejected (message : option string).

Section Service.

(** The message of the [TypeError] the runtime raises when a property of
    [undefined] or [null] is read; its wording is the engine's. *)
Variable TypeError_message : string.

(** [response.text || "[]"] on success.  On failure the [catch] throws a
    new error carrying [error.message || "Failed to generate content"];
    reading [error.message] itself throws when [error] is [undefined] or
    [null], and that [TypeError] is what leaves the function. *)
Definition generateContentWithGemini (outcome : sdkOutcome) : completion string :=
  match outcome with
  | Resolved (Some text) => Normal (if isEmpty text then "[]" else text)
  | Resolved None => Normal "[]"
  | Rejected (Some m) =>
      Throw (Some (if isEmpty m then "Failed to generate content" else m))
  | Rejected None => Throw (Some "Failed to generate content")
  | RejectedNullish => Throw (Some TypeError_message)
  end.

End Service.

(** ** Strings of the runtime used by the renderers *)

(** Whether the code unit [c] occurs in [s]. *)
Fixpoint containsChar (c : ascii) (s : string) : bool :=
  match s with
  | EmptyString => false
  | String c' s' => Ascii.eqb c' c || containsChar c s'
  end.

Definition hasDash (s : string) : bool := containsChar "-" s.

(** [s.substring(n)]: [s] without its first [n] code units. *)
Fixpoint substringFrom (n : nat) (s : string) : string :=
  match n, s with
  | S n', String _ s' => substringFrom n' s'
  | _, _ => s
  end.

(** [s.split(sep)] for a separator that is not empty: the pieces between
    the occurrences of [sep], found from the left.  [piece] collects the
    current piece and [skip] counts the code units of a separator still
    to be passed over. *)
Fixpoint splitFrom (sep : string) (skip : nat) (piece : string) (s : string)
    : list string :=
  match s with
  | EmptyString => [piece]
  | String c s' =>
      match skip with
      | S k => splitFrom sep k piece s'
      | O =>
          if String.prefix sep s
          then piece :: splitFrom sep (String.length sep - 1) EmptyString s'
          else splitFrom sep 0 (piece ++ String c EmptyString) s'
      end
  end.

Definition split (sep s : string) : list string := splitFrom sep 0 EmptyString s.

(** [s.replace(pattern, replacement)] for a string pattern: the first
    occurrence only. *)
Fixpoint replaceFirst (pattern replacement s : string) : string :=
  if String.prefix pattern s
  then replacement ++ substringFrom (String.length pattern) s
  else match s with
       | EmptyString => EmptyString
       | String c s' => String c (replaceFirst pattern replacement s')
       end.

(** ** [processFile] ([utils/fileUtils.ts]) *)

(** The [onload] handler: [result] is the data URL the reader produced and
    [fileType] is [file.type].  [base64Data] is [result.split(',')[1]];
    [None] stands for a [result] without a comma, where [base64Data] is
    [undefined]. *)
Definition processFile (fileType result : string) : option UploadedImage :=
  base64Data ← split "," result !! 1%nat;
  Some {| previewUrl := result; base64Data := base64Data; mimeType := fileType |}.

(** ** [MarkdownRenderer] *)

Inductive Block : Type :=
  | H1 (text : string)
  | H2 (text : string)
  | H3 (text : string)
  | UL (items : list string)
  | Pre (code : string)
  | P (text : string).

(** [\w] *)
Definition isWordChar (c : ascii) : bool :=
  let n := N_of_ascii c in
  ((48 <=? n) && (n <=? 57) || (65 <=? n) && (n <=? 90)
   || (97 <=? n) && (n <=? 122) || (n =? 95))%N.

(** Where the scan of [stripFences] stands: copying, inside the three
    backticks of a fence with [n + 1] of them still to pass, or inside
    the word that may follow a fence. *)
Inductive FenceScan : Type :=
  | Copying
  | InTicks (n : nat)
  | InWord.

(** [para.replace(/```\w*\n?|```/g, '')] *)
Fixpoint stripFencesFrom (mode : FenceScan) (s : string) : string :=
  match s with
  | EmptyString => EmptyString
  | String c s' =>
      let copy :=
        if String.prefix "```" s then stripFencesFrom (InTicks 1) s'
        else String c (stripFencesFrom Copying s') in
      match mode with
      | Copying => copy
      | InTicks (S n) => stripFencesFrom (InTicks n) s'
      | InTicks O => stripFencesFrom InWord s'
      | InWord =>
          if isWordChar c then stripFencesFrom InWord s'
          else if Ascii.eqb c (ascii_of_nat 10) then stripFencesFrom Copying s'
          else copy
      end
  end.

Definition stripFences (s : string) : string := stripFencesFrom Copying s.

(** The element one paragraph is rendered as. *)
Definition renderParagraph (para : string) : Block :=
  if String.prefix "### " para then H3 (replaceFirst "### " "" para)
  else if String.prefix "## " para then H2 (replaceFirst "## " "" para)
  else if String.prefix "# " para then H1 (replaceFirst "# " "" para)
  else if String.prefix "- " (trim para) || String.prefix "* " (trim para)
  then UL (map (fun line => substringFrom 2 (trim line)) (split nl para))
  else if String.prefix "```" para then Pre (stripFences para)
  else P para.

(** [content.split('\n\n').filter(Boolean)], each paragraph rendered. *)
Definition MarkdownRenderer (content : string) : list Block :=
  map renderParagraph
      (List.filter (fun para => negb (isEmpty para)) (split (nl ++ nl) content)).

(** Whether [sep] occurs somewhere in [s]. *)
Fixpoint occurs (sep s : string) : bool :=
  String.prefix sep s
  || match s with
     | EmptyString => false
     | String _ s' => occurs sep s'
     end.

(** ** Records that are not of the declared shape *)

(** [box_2d] as it may arrive: an array, of any length, or a value that
    [let [ymin, xmin, ymax, xmax] = box] cannot iterate, such as
    [undefined], [null], a number or a plain object. *)
Inductive rawBox : Type :=
  | NotIterable
  | Entries (entries : list jsval).

(** The destructuring: an entry the array does not have is [undefined],
    and what cannot be iterated throws a [TypeError]. *)
Definition destructure (box : rawBox)
    : completion (jsval * jsval * jsval * jsval) :=
  match box with
  | NotIterable => Throw (Some "TypeError")
  | Entries entries =>
      Normal (default VUndefined (entries !! 0%nat),
              default VUndefined (entries !! 1%nat),
              default VUndefined (entries !! 2%nat),
              default VUndefined (entries !! 3%nat))
  end.

(** [getBoxStyle] from its argument as it arrives. *)
Definition getBoxStyle_untyped (StringToNumber : string -> float)
    (box : rawBox) : completion BoxStyle :=
  entries ← destructure box; mret (getBoxStyle StringToNumber entries).

(** [detectionsByImage] on a batch of which an entry may be [undefined]
    or [null], written [None]: reading [d.imageIndex] of such an entry
    throws a [TypeError], which ends the [forEach]. *)
Definition detectionsByImage_untyped (detections : list (option Detection))
    (images : list UploadedImage) : completion (gmap number (list Detection)) :=
  foldl (fun acc entry =>
           map ← acc;
           match entry with
           | None => Throw (Some "TypeError")
           | Some d => mret (addDetection (length images) map d)
           end)
        (Normal (initGroups (length images))) detections.


(** ** Checking the coordinate grid *)

(** The properties of the binary64 arithmetic used below are checked at
    every point of a grid: the whole numbers [0 .. 1000] of the declared
    1000 x 1000 scale, and the decimals [0.000 .. 1.000] of the
    normalized convention. *)

(** [p k && p (k + 1) && ...], [fuel] times. *)
Fixpoint forallFrom (fuel : nat) (k : Z) (p : Z -> bool) : bool :=
  match fuel with
  | O => true
  | S fuel' => p k && forallFrom fuel' (k + 1) p
  end.

(** One coordinate [k], [whole] being [ofInt k] and [fraction] being
    [thousandth k]: the decimal is at most [1.5], the whole number is at
    most [1.5] only if it is [0] or [1], and the two percentages agree. *)
Definition checkCoordinateWith (whole fraction : float) (k : Z) : bool :=
  (fraction <=? 1.5)%float
  && Bool.eqb (whole <=? 1.5)%float (k <=? 1)%Z
  && differAtMost 1e-13 (fraction * 100) (whole / 10).

Definition checkCoordinate (k : Z) : bool :=
  checkCoordinateWith (ofInt k) (thousandth k) k.

(** Two coordinates of one axis, [lo] read as the minimum and [hi] as the
    maximum: the two percentages of the extent agree, and the extent is
    negative in either branch when [hi < lo]. *)
Definition checkExtentWith (wholeLo fractionLo : float) (lo hi : Z) : bool :=
  let wholeHi := ofInt hi in
  let fractionHi := thousandth hi in
  differAtMost 1e-13 ((fractionHi - fractionLo) * 100) ((wholeHi - wholeLo) / 10)
  && (if (hi <? lo)%Z
      then ((fractionHi - fractionLo) * 100 <? 0)%float
           && ((fractionHi - fractionLo) / 10 <? 0)%float
           && ((wholeHi - wholeLo) * 100 <? 0)%float
           && ((wholeHi - wholeLo) / 10 <? 0)%float
      else true).

Definition checkExtent (lo hi : Z) : bool :=
  checkExtentWith (ofInt lo) (thousandth lo) lo hi.

Definition checkRowWith (whole fraction : float) (lo : Z) : bool :=
  checkCoordinateWith whole fraction lo
  && forallFrom 1001 0 (checkExtentWith whole fraction lo).

Definition checkRow (lo : Z) : bool :=
  checkRowWith (ofInt lo) (thousandth lo) lo.

(** The percentage shown for the confidence [k / 1000] is one of the two
    whole numbers next to [k / 10], at most half a point away. *)
Definition checkPercentage (k : Z) : bool :=
  let shown := formatConfidence (thousandth k) in
  let z := (k / 10)%Z in
  PrimFloat.Leibniz.eqb shown (ofInt z) && (k - 10 * z <=? 5)%Z
  || PrimFloat.Leibniz.eqb shown (ofInt (z + 1)) && (10 * (z + 1) - k <=? 5)%Z
     && (z + 1 <=? 100)%Z.

(** A [StringToNumber] under which no string is a number.  The only string
    it is applied to below is ["n/a"], which the runtime maps to [NaN]
    as well. *)
Definition noNumericString : string -> float := fun _ => nan.

(** A box whose four entries are numbers, as [box_2d] is declared. *)
Definition box4 (ymin xmin ymax xmax : float) : jsval * jsval * jsval * jsval :=
  (VNum ymin, VNum xmin, VNum ymax, VNum xmax).

(** ** Sample data *)

Definition sampleImage : UploadedImage :=
  {| previewUrl := "data:image/png;base64,AA=="; base64Data := "AA==";
     mimeType := "image/png" |}.

Definition threeImages : list UploadedImage :=
  [sampleImage; sampleImage; sampleImage].

(** [{imageIndex:"1", box_2d:[10,10,50,50], confidence:0.9, label:"HOLES",
      description:"x"}] *)
Definition holesAt1 : Detection :=
  {| label := "HOLES"; confidence := decimal 9 1; description := "x";
     imageIndex := IdxStr "1";
     box_2d := box4 10 10 50 50 |}.


(** The same record with the native index [1.5]. *)
Definition holesAtOneAndHalf : Detection :=
  {| label := "HOLES"; confidence := decimal 9 1; description := "x";
     imageIndex := IdxNum (decimal 15 1);
     box_2d := box4 10 10 50 50 |}.

(** A record for image [0] whose box is [[10, 10, "n/a"]]: the third
    entry is no number and the fourth is missing. *)
Definition brokenBox : Detection :=
  {| label := "HOLES"; confidence := decimal 9 1; description := "x";
     imageIndex := IdxNum (ofZ 0);
     box_2d := (VNum 10, VNum 10, VStr "n/a", VUndefined) |}.

(** Committing a sequence of values one after the other. *)
Definition commitAll (values : list string) (prev : list string) : list string :=
  foldl (fun history currentValue => commit currentValue history) prev values.

(** No value of the sequence equals the one before it, [last] being the
    one before the first. *)
Fixpoint chain (last : option string) (values : list string) : Prop :=
  match values with
  | [] => True
  | v :: values' => last <> Some v /\ chain (Some v) values'
  end.

Definition elevenValues : list string :=
  ["v1"; "v2"; "v3"; "v4"; "v5"; "v6"; "v7"; "v8"; "v9"; "v10"; "v11"].

(** A [JSON.parse] that knows the two texts used below and rejects the
    rest. *)
Definition sampleParse (text : string) : completion json :=
  if String.eqb text "{}" then Normal (JObject [])
  else if String.eqb text "[]" then Normal (JArray [])
  else Throw (Some "SyntaxError").

(** A store whose role history entry holds the text [{}]. *)
Definition objectInHistory : Storage :=
  StorageOf {[ "gemini_analyzer_role_history" := "{}" ]}.

Definition sampleField : PromptField := {| value := "x"; history := [] |}.

(** The state after a run that succeeded with the response [[]]. *)
Definition afterSuccess : AppState :=
  {| role := sampleField; criteria := sampleField;
     attributes := sampleField; format := sampleField;
     images := threeImages;
     status := SUCCESS;
     responseText := "[]";
     errorMsg := None;
     parsedDetections := Some [];
     viewMode := visual |}.

(** [d] is accepted by the range check and resolves to the key [k]. *)
Definition belongs (n : nat) (k : number) (d : Detection) : Prop :=
  inRange (indexOf d) n = true /\ indexOf d = k.

Global Instance belongs_dec n k d : Decision (belongs n k d).
Proof. unfold belongs. apply _. Defined.

(** A number that is a mathematical integer. *)
Definition isInteger (x : number) : Prop := exists z : Z, x = ofZ z.

(** * Properties *)

(** ** Arithmetic on [number] *)

Ltac qc2q :=
  unfold Qclt, Qcle, Qcdiv, Qcinv, Qcminus, Qcmult, Qcplus, Qcopp, Q2Qc in *;
  cbn [this] in *; rewrite ?Qred_correct in *;
  unfold inject_Z in *;
  change (/ (10 # 1))%Q with (1 # 10)%Q in *.

(** Equality of two closed numbers. *)
Ltac num_eq_step :=
  match goal with
  | |- @eq Qc _ _ => apply Qc_is_canon; reflexivity
  | |- @eq number (Num _) (Num _) => apply (f_equal Num)
  | |- @eq number _ _ => reflexivity
  end.
Ltac num_eq := vm_compute; repeat num_eq_step.

Lemma num_lt_Num x y :
  num_lt x y = true <-> exists a b, x = Num a /\ y = Num b /\ (a < b)%Qc.
Proof.
  split.
  - destruct x as [|a], y as [|b]; simpl; try discriminate.
    intros H%bool_decide_eq_true. eauto.
  - intros (a & b & -> & -> & H). simpl. by apply bool_decide_eq_true.
Qed.

Lemma num_le_Num x y :
  num_le x y = true <-> exists a b, x = Num a /\ y = Num b /\ (a ≤ b)%Qc.
Proof.
  split.
  - destruct x as [|a], y as [|b]; simpl; try discriminate.
    intros H%bool_decide_eq_true. eauto.
  - intros (a & b & -> & -> & H). simpl. by apply bool_decide_eq_true.
Qed.

(** ** Binary64 arithmetic *)

Lemma is_nan_spec (x : float) : is_nan x = true <-> x = nan.
Proof.
  unfold is_nan. rewrite FloatAxioms.eqb_spec. split.
  - intros H. apply Prim2SF_inj. change (Prim2SF nan) with S754_nan.
    destruct (Prim2SF x) as [s|s| |s m e]; try done.
    + by destruct s.
    + exfalso. revert H. unfold SFeqb, SFcompare.
      rewrite Z.compare_refl, Pos.compare_cont_refl. by destruct s.
  - by intros ->.
Qed.

Lemma mul_nan_l (y : float) : (nan * y)%float = nan.
Proof. apply Prim2SF_inj. rewrite FloatAxioms.mul_spec. reflexivity. Qed.

Lemma div_nan_l (y : float) : (nan / y)%float = nan.
Proof. apply Prim2SF_inj. rewrite FloatAxioms.div_spec. reflexivity. Qed.

Lemma sub_nan_l (y : float) : (nan - y)%float = nan.
Proof. apply Prim2SF_inj. rewrite FloatAxioms.sub_spec. reflexivity. Qed.

Lemma sub_nan_r (x : float) : (x - nan)%float = nan.
Proof.
  apply Prim2SF_inj. rewrite FloatAxioms.sub_spec.
  change (Prim2SF nan) with S754_nan. by destruct (Prim2SF x).
Qed.

Lemma forallFrom_spec fuel k0 p :
  forallFrom fuel k0 p = true ->
  forall k, (k0 <= k < k0 + Z.of_nat fuel)%Z -> p k = true.
Proof.
  revert k0. induction fuel as [|n IH]; cbn [forallFrom]; intros k0 H k Hk; [lia|].
  apply andb_prop in H as [H1 H2].
  destruct (Z.eq_dec k k0) as [->|Hne]; [exact H1|].
  apply (IH _ H2). lia.
Qed.

(** The grid, point by point: a computation on binary64 values. *)
Lemma checkRow_everywhere : forallFrom 1001 0 checkRow = true.
Proof. vm_compute. reflexivity. Qed.

Lemma checkRow_true lo : (0 <= lo <= 1000)%Z -> checkRow lo = true.
Proof.
  intros Hlo. apply (forallFrom_spec 1001 0 checkRow checkRow_everywhere). lia.
Qed.

Lemma checkCoordinate_true k : (0 <= k <= 1000)%Z -> checkCoordinate k = true.
Proof.
  intros Hk. pose proof (checkRow_true k Hk) as H.
  unfold checkRow, checkRowWith in H. by apply andb_prop in H as [H _].
Qed.

Lemma checkExtent_true lo hi :
  (0 <= lo <= 1000)%Z -> (0 <= hi <= 1000)%Z -> checkExtent lo hi = true.
Proof.
  intros Hlo Hhi. pose proof (checkRow_true lo Hlo) as H.
  unfold checkRow, checkRowWith in H. apply andb_prop in H as [_ H].
  apply (forallFrom_spec 1001 0 _ H). lia.
Qed.

Lemma thousandth_small k :
  (0 <= k <= 1000)%Z -> (thousandth k <=? 1.5)%float = true.
Proof.
  intros Hk. pose proof (checkCoordinate_true k Hk) as H.
  unfold checkCoordinate, checkCoordinateWith in H.
  apply andb_prop in H as [H _]. by apply andb_prop in H as [H _].
Qed.

Lemma ofInt_not_small k :
  (2 <= k <= 1000)%Z -> (ofInt k <=? 1.5)%float = false.
Proof.
  intros Hk. pose proof (checkCoordinate_true k ltac:(lia)) as H.
  unfold checkCoordinate, checkCoordinateWith in H.
  apply andb_prop in H as [H _]. apply andb_prop in H as [_ H].
  apply Bool.eqb_prop in H. rewrite H. apply Z.leb_gt. lia.
Qed.

Lemma coordinate_agrees k :
  (0 <= k <= 1000)%Z ->
  differAtMost 1e-13 (thousandth k * 100) (ofInt k / 10) = true.
Proof.
  intros Hk. pose proof (checkCoordinate_true k Hk) as H.
  unfold checkCoordinate, checkCoordinateWith in H.
  by apply andb_prop in H as [_ H].
Qed.

Lemma extent_agrees lo hi :
  (0 <= lo <= 1000)%Z -> (0 <= hi <= 1000)%Z ->
  differAtMost 1e-13 ((thousandth hi - thousandth lo) * 100)
                     ((ofInt hi - ofInt lo) / 10) = true.
Proof.
  intros Hlo Hhi. pose proof (checkExtent_true lo hi Hlo Hhi) as H.
  unfold checkExtent, checkExtentWith in H. cbv zeta in H.
  by apply andb_prop in H as [H _].
Qed.

Lemma extent_inverted lo hi :
  (0 <= lo <= 1000)%Z -> (0 <= hi <= 1000)%Z -> (hi < lo)%Z ->
  ((thousandth hi - thousandth lo) * 100 <? 0)%float = true /\
  ((thousandth hi - thousandth lo) / 10 <? 0)%float = true /\
  ((ofInt hi - ofInt lo) * 100 <? 0)%float = true /\
  ((ofInt hi - ofInt lo) / 10 <? 0)%float = true.
Proof.
  intros Hlo Hhi Hlt. pose proof (checkExtent_true lo hi Hlo Hhi) as H.
  unfold checkExtent, checkExtentWith in H. cbv zeta in H.
  apply andb_prop in H as [_ H].
  rewrite (proj2 (Z.ltb_lt hi lo) Hlt) in H.
  apply andb_prop in H as [H H4]. apply andb_prop in H as [H H3].
  apply andb_prop in H as [H1 H2]. done.
Qed.

(** ** The coordinate normalizer *)

(** C1, as stated, fails: [getBoxStyle([5,5,2,2])] takes the 0-1000 branch
    and yields width [-0.3] and height [-0.3], which are not zero. *)
Lemma getBoxStyle_degenerate_not_zero :
  let st := getBoxStyle noNumericString (box4 5 5 2 2) in
  width st = (-0.3)%float /\ height st = (-0.3)%float /\
  (width st <? 0)%float = true /\ (height st <? 0)%float = true /\
  width st <> 0%float /\ height st <> 0%float.
Proof. cbv zeta. repeat split; by vm_compute. Qed.

(** The sign is lost only to underflow: the box [[2, 5e-324, 2, 0]] has
    [xmax < xmin], the difference [-5e-324] is the smallest negative
    binary64 value, and its tenth rounds to [-0]. *)
Lemma getBoxStyle_underflow :
  width (getBoxStyle noNumericString (box4 2 5e-324 2 0)) = (-0)%float.
Proof. reflexivity. Qed.

(** C1 (amended): the normalizer does not clamp.  Whatever the box
    holds, the width is the scaled difference, [(xmax - xmin) * 100] when
    all four coordinates are at most [1.5] and [(xmax - xmin) / 10]
    otherwise, and the height likewise.  For a box of whole
    numbers from 0 to 1000, and for a box of the decimals [0.000] to
    [1.000], [xmax < xmin] gives a negative width and [ymax < ymin] a
    negative height.  The box [[5, 5, 2, 2]] has width and height
    [-0.3]. *)
Theorem getBoxStyle_inverted_negative (StringToNumber : string -> float)
    (box : jsval * jsval * jsval * jsval) (ymin xmin ymax xmax : Z) :
  (0 <= ymin <= 1000)%Z -> (0 <= xmin <= 1000)%Z ->
  (0 <= ymax <= 1000)%Z -> (0 <= xmax <= 1000)%Z ->
  let whole := getBoxStyle StringToNumber
                 (box4 (ofInt ymin) (ofInt xmin) (ofInt ymax) (ofInt xmax)) in
  let fraction := getBoxStyle StringToNumber
                    (box4 (thousandth ymin) (thousandth xmin)
                          (thousandth ymax) (thousandth xmax)) in
  (let '(y0, x0, y1, x1) := box in
   let st := getBoxStyle StringToNumber box in
   let dx := (Number StringToNumber x1 - Number StringToNumber x0)%float in
   let dy := (Number StringToNumber y1 - Number StringToNumber y0)%float in
   if ((Number StringToNumber y0 <=? 1.5) && (Number StringToNumber x0 <=? 1.5)
       && (Number StringToNumber y1 <=? 1.5) && (Number StringToNumber x1 <=? 1.5))%float
   then width st = (dx * 100)%float /\ height st = (dy * 100)%float
   else width st = (dx / 10)%float /\ height st = (dy / 10)%float) /\
  ((xmax < xmin)%Z ->
   (width whole <? 0)%float = true /\ (width fraction <? 0)%float = true) /\
  ((ymax < ymin)%Z ->
   (height whole <? 0)%float = true /\ (height fraction <? 0)%float = true) /\
  width (getBoxStyle StringToNumber (box4 5 5 2 2)) = (-0.3)%float /\
  height (getBoxStyle StringToNumber (box4 5 5 2 2)) = (-0.3)%float.
Proof.
  intros Hy0 Hx0 Hy1 Hx1 whole fraction. subst whole fraction.
  split; [|split; [|split; [|split; reflexivity]]].
  - destruct box as [[[y0 x0] y1] x1]. unfold getBoxStyle. cbv zeta.
    by destruct (_ && _).
  - intros Hlt. destruct (extent_inverted xmin xmax Hx0 Hx1 Hlt) as (?&?&?&?).
    unfold getBoxStyle, box4. cbn [Number]. split; by destruct (_ && _).
  - intros Hlt. destruct (extent_inverted ymin ymax Hy0 Hy1 Hlt) as (?&?&?&?).
    unfold getBoxStyle, box4. cbn [Number]. split; by destruct (_ && _).
Qed.

Lemma getBoxStyle_inverted_negative_witness :
  (width (getBoxStyle noNumericString (box4 5 5 2 2)) <? 0)%float = true /\
  (height (getBoxStyle noNumericString (box4 5 5 2 2)) <? 0)%float = true /\
  (width (getBoxStyle noNumericString (box4 0.005 0.005 0.002 0.002)) <? 0)%float
  = true.
Proof.
  destruct (getBoxStyle_inverted_negative noNumericString
              (VNum 5, VNum 5, VNum 2, VNum 2) 5 5 2 2) as (_ & Hw & Hh & _);
    try lia.
  destruct (Hw ltac:(lia)) as [Hw1 Hw2]. destruct (Hh ltac:(lia)) as [Hh1 _].
  split; [exact Hw1 | split; [exact Hh1 | exact Hw2]].
Defined.

(** C2, as stated, fails twice over.  The box [[0, 0, 0.001, 0.001]] of
    the normalized convention is [[0, 0, 1, 1]] on the 0-1000 scale, which
    the heuristic takes for a normalized box again: the widths come out
    as [0.1] and [100].  And where both branches are taken, rounding
    separates them: [[0.1, 0.1, 0.4, 0.4]] has the width
    [30.000000000000004] and [[100, 100, 400, 400]] the width [30]. *)
Lemma getBoxStyle_scales_disagree :
  width (getBoxStyle noNumericString (box4 0 0 0.001 0.001)) = 0.1%float /\
  width (getBoxStyle noNumericString (box4 0 0 1 1)) = 100%float /\
  width (getBoxStyle noNumericString (box4 0.1 0.1 0.4 0.4))
  = 30.000000000000004%float /\
  width (getBoxStyle noNumericString (box4 100 100 400 400)) = 30%float /\
  getBoxStyle noNumericString (box4 0 0 0.001 0.001)
  <> getBoxStyle noNumericString (box4 0 0 1 1) /\
  getBoxStyle noNumericString (box4 0.1 0.1 0.4 0.4)
  <> getBoxStyle noNumericString (box4 100 100 400 400).
Proof.
  repeat split; try reflexivity; intros H;
    apply (f_equal (fun st => (width st <=? 30)%float)) in H;
    vm_compute in H; discriminate.
Qed.

(** C2 (amended): where both branches are taken they agree on the unit,
    up to rounding.  For a box of the decimals [0.000] to [1.000] of which
    one coordinate at least is [0.002] or more, the box and its 1000-fold,
    a box of whole numbers, give four fields that differ by [1e-13] at
    most; and the boxes [[0.1, 0.2, 0.3, 0.4]] and [[100, 200, 300, 400]]
    give the same style. *)
Theorem getBoxStyle_scale_agree (StringToNumber : string -> float)
    (ymin xmin ymax xmax : Z) :
  (0 <= ymin <= 1000)%Z -> (0 <= xmin <= 1000)%Z ->
  (0 <= ymax <= 1000)%Z -> (0 <= xmax <= 1000)%Z ->
  (2 <= ymin \/ 2 <= xmin \/ 2 <= ymax \/ 2 <= xmax)%Z ->
  let fraction := getBoxStyle StringToNumber
                    (box4 (thousandth ymin) (thousandth xmin)
                          (thousandth ymax) (thousandth xmax)) in
  let whole := getBoxStyle StringToNumber
                 (box4 (ofInt ymin) (ofInt xmin) (ofInt ymax) (ofInt xmax)) in
  fraction
  = {| top := (thousandth ymin * 100)%float;
       left := (thousandth xmin * 100)%float;
       width := ((thousandth xmax - thousandth xmin) * 100)%float;
       height := ((thousandth ymax - thousandth ymin) * 100)%float |} /\
  whole
  = {| top := (ofInt ymin / 10)%float;
       left := (ofInt xmin / 10)%float;
       width := ((ofInt xmax - ofInt xmin) / 10)%float;
       height := ((ofInt ymax - ofInt ymin) / 10)%float |} /\
  differAtMost 1e-13 (top fraction) (top whole) = true /\
  differAtMost 1e-13 (left fraction) (left whole) = true /\
  differAtMost 1e-13 (width fraction) (width whole) = true /\
  differAtMost 1e-13 (height fraction) (height whole) = true /\
  getBoxStyle StringToNumber (box4 0.1 0.2 0.3 0.4)
  = getBoxStyle StringToNumber (box4 100 200 300 400).
Proof.
  intros Hy0 Hx0 Hy1 Hx1 Hlarge fraction whole.
  assert (Ef : fraction
               = {| top := (thousandth ymin * 100)%float;
                    left := (thousandth xmin * 100)%float;
                    width := ((thousandth xmax - thousandth xmin) * 100)%float;
                    height := ((thousandth ymax - thousandth ymin) * 100)%float |}).
  { subst fraction. unfold getBoxStyle, box4. cbn [Number].
    by rewrite !thousandth_small. }
  assert (Ew : whole
               = {| top := (ofInt ymin / 10)%float;
                    left := (ofInt xmin / 10)%float;
                    width := ((ofInt xmax - ofInt xmin) / 10)%float;
                    height := ((ofInt ymax - ofInt ymin) / 10)%float |}).
  { subst whole. unfold getBoxStyle, box4. cbn [Number].
    destruct Hlarge as [H|[H|[H|H]]];
      [rewrite (ofInt_not_small ymin) by lia
      |rewrite (ofInt_not_small xmin) by lia
      |rewrite (ofInt_not_small ymax) by lia
      |rewrite (ofInt_not_small xmax) by lia];
      by rewrite ?andb_false_r. }
  rewrite Ef, Ew. cbn [top left width height].
  repeat split; try done;
    first [by apply coordinate_agrees | by apply extent_agrees].
Qed.

Lemma getBoxStyle_scale_agree_witness :
  differAtMost 1e-13
    (width (getBoxStyle noNumericString (box4 0.1 0.1 0.4 0.4)))
    (width (getBoxStyle noNumericString (box4 100 100 400 400))) = true.
Proof.
  destruct (getBoxStyle_scale_agree noNumericString 100 100 400 400)
    as (_ & _ & _ & _ & H & _); try lia.
  exact H.
Defined.

(** ** Integers among the numbers *)

Lemma ofZ_le (a b : Z) :
  (Q2Qc (inject_Z a) ≤ Q2Qc (inject_Z b))%Qc <-> (a <= b)%Z.
Proof. qc2q. unfold Qle. cbn [Qnum Qden]. lia. Qed.

Lemma ofZ_lt (a b : Z) :
  (Q2Qc (inject_Z a) < Q2Qc (inject_Z b))%Qc <-> (a < b)%Z.
Proof. qc2q. unfold Qlt. cbn [Qnum Qden]. lia. Qed.

Lemma ofZ_inj (a b : Z) : ofZ a = ofZ b -> a = b.
Proof.
  intros H. injection H as H. apply Qred_eq_iff in H.
  unfold Qeq, inject_Z in H. cbn [Qnum Qden] in H. lia.
Qed.

Lemma ofNat_inj (i j : nat) : ofNat i = ofNat j -> i = j.
Proof. intros H%ofZ_inj. lia. Qed.

Lemma inRange_ofZ (z : Z) (n : nat) :
  inRange (ofZ z) n = true <-> (0 <= z < Z.of_nat n)%Z.
Proof.
  unfold inRange, num_ge, num_le, num_lt, ofNat, ofZ.
  rewrite andb_true_iff, !bool_decide_eq_true, ofZ_le, ofZ_lt. done.
Qed.

Lemma inRange_ofNat (i n : nat) : inRange (ofNat i) n = true <-> (i < n)%nat.
Proof. unfold ofNat. rewrite inRange_ofZ. lia. Qed.

Lemma inRange_integer k n :
  inRange k n = true -> isInteger k -> exists i, (i < n)%nat /\ k = ofNat i.
Proof.
  intros H [z ->]. apply inRange_ofZ in H.
  exists (Z.to_nat z). split; [lia|]. unfold ofNat. f_equal. lia.
Qed.


Lemma inRange_pos idx n : inRange idx n = true -> (0 < n)%nat.
Proof.
  intros H. destruct n; [|lia]. exfalso.
  destruct idx as [|q]; [discriminate|].
  unfold inRange, num_ge, num_le, num_lt, ofNat, ofZ in H.
  change (Z.of_nat 0) with 0%Z in H.
  apply andb_prop in H as [Hge Hlt]. apply bool_decide_eq_true in Hge, Hlt.
  qc2q. lra.
Qed.

Lemma parseInt_integer s : parseInt s = NaN \/ isInteger (parseInt s).
Proof.
  unfold parseInt, isInteger.
  repeat match goal with
         | |- context [let '(_, _) := ?p in _] => destruct p
         end.
  destruct (parseDigits _ _ _); eauto.
Qed.

(** ** Grouping *)

Lemma initGroups_S n : initGroups (S n) = <[ofNat n := []]> (initGroups n).
Proof. unfold initGroups. by rewrite seq_S, foldl_app. Qed.

Lemma initGroups_position n i :
  (i < n)%nat -> initGroups n !! ofNat i = Some [].
Proof.
  induction n as [|n IH]; [lia|]. intros Hi. rewrite initGroups_S.
  destruct (decide (i = n)) as [->|Hne].
  - by rewrite lookup_insert_eq.
  - rewrite lookup_insert_ne; [apply IH; lia|].
    intros E%ofNat_inj. lia.
Qed.

Lemma initGroups_inv n k l :
  initGroups n !! k = Some l -> l = [] /\ exists i, (i < n)%nat /\ k = ofNat i.
Proof.
  induction n as [|n IH]; [done|]. rewrite initGroups_S.
  destruct (decide (ofNat n = k)) as [<-|Hne].
  - rewrite lookup_insert_eq. intros [= <-]. split; [done|]. exists n. split; [lia|done].
  - rewrite lookup_insert_ne by done. intros [-> (i & Hi & ->)]%IH.
    split; [done|]. exists i. split; [lia|done].
Qed.

Lemma addDetection_lookup n (map : gmap number (list Detection)) d k :
  addDetection n map d !! k =
  if decide (belongs n k d) then Some (default [] (map !! k) ++ [d])
  else map !! k.
Proof.
  unfold addDetection.
  destruct (inRange (indexOf d) n) eqn:Hr.
  - destruct (decide (indexOf d = k)) as [<-|Hne].
    + rewrite decide_True by done. rewrite lookup_alter_eq.
      case_bool_decide as Hsome.
      * destruct Hsome as [arr ->]. done.
      * rewrite lookup_insert_eq.
        destruct (map !! indexOf d) eqn:E; [|done].
        destruct Hsome. eauto.
    + rewrite decide_False by (intros [_ ?]; done).
      rewrite lookup_alter_ne by done.
      case_bool_decide; [done|]. by rewrite lookup_insert_ne.
  - rewrite decide_False; [done|]. intros [? _]. congruence.
Qed.

Lemma foldl_addDetection_lookup n detections
    (map : gmap number (list Detection)) k :
  foldl (addDetection n) map detections !! k =
  match map !! k, filter (belongs n k) detections with
  | None, [] => None
  | o, l => Some (default [] o ++ l)
  end.
Proof.
  revert map. induction detections as [|d detections IH]; intros map; cbn [foldl].
  - rewrite filter_nil. destruct (map !! k); [|done]. by rewrite app_nil_r.
  - rewrite IH, addDetection_lookup, filter_cons.
    destruct (decide (belongs n k d)) as [Hb|Hb].
    + destruct (map !! k); simpl; [by rewrite <- app_assoc | done].
    + done.
Qed.

(** Every group is the sub-sequence, in arrival order, of the accepted
    records that resolve to its key. *)
Lemma detectionsByImage_group detections images k l :
  detectionsByImage detections images !! k = Some l ->
  l = filter (belongs (length images) k) detections.
Proof.
  unfold detectionsByImage. rewrite foldl_addDetection_lookup.
  destruct (initGroups (length images) !! k) eqn:E.
  - apply initGroups_inv in E as [-> _]. cbn. by intros [= <-].
  - cbn. destruct (filter _ detections); [done | by intros [= <-]].
Qed.

Lemma detectionsByImage_position detections images i :
  (i < length images)%nat ->
  detectionsByImage detections images !! ofNat i
  = Some (filter (belongs (length images) (ofNat i)) detections).
Proof.
  intros Hi. unfold detectionsByImage.
  rewrite foldl_addDetection_lookup, (initGroups_position _ _ Hi). done.
Qed.

Lemma detectionsByImage_accepted detections images d :
  d ∈ detections -> inRange (indexOf d) (length images) = true ->
  exists l, detectionsByImage detections images !! indexOf d = Some l /\ d ∈ l.
Proof.
  intros Hd Hr.
  assert (Hin : d ∈ filter (belongs (length images) (indexOf d)) detections).
  { apply list_elem_of_filter. by split. }
  unfold detectionsByImage. rewrite foldl_addDetection_lookup.
  destruct (filter _ detections) as [|x l] eqn:E.
  { by apply not_elem_of_nil in Hin. }
  exists (default [] (initGroups (length images) !! indexOf d) ++ x :: l).
  split; [by destruct (initGroups _ !! _)|].
  apply elem_of_app. by right.
Qed.

Lemma detectionsByImage_key detections images k :
  is_Some (detectionsByImage detections images !! k) ->
  (exists i, (i < length images)%nat /\ k = ofNat i) \/
  (exists d, d ∈ detections /\ belongs (length images) k d).
Proof.
  intros [l Hl]. unfold detectionsByImage in Hl.
  rewrite foldl_addDetection_lookup in Hl.
  destruct (initGroups (length images) !! k) eqn:E.
  - left. by apply initGroups_inv in E as [_ ?].
  - right. destruct (filter _ detections) as [|d l'] eqn:F; [done|].
    exists d. apply and_comm, (list_elem_of_filter (belongs (length images) k)).
    rewrite F. by left.
Qed.

(** ** One render pass *)

Lemma resolve_lt sel n : (0 < n)%nat -> (resolve sel n < n)%nat.
Proof. intros Hn. unfold resolve. destruct (Nat.leb_spec n sel); lia. Qed.

Lemma DetectionResult_Some (StringToNumber : string -> float) sel detections images :
  (0 < length images)%nat ->
  exists img,
    images !! resolve sel (length images) = Some img /\
    DetectionResult StringToNumber sel detections images
    = Some {| safeIndex := resolve sel (length images);
              currentImage := img;
              currentDefects :=
                filter (belongs (length images)
                          (ofNat (resolve sel (length images)))) detections;
              overlays :=
                map (fun det => getBoxStyle StringToNumber (box_2d det))
                  (filter (belongs (length images)
                             (ofNat (resolve sel (length images)))) detections) |}.
Proof.
  intros Hn. pose proof (resolve_lt sel _ Hn) as Hlt.
  destruct (lookup_lt_is_Some_2 images _ Hlt) as [img Himg].
  exists img. split; [done|]. unfold DetectionResult.
  destruct (Nat.eqb_spec (length images) 0) as [E|_]; [lia|].
  rewrite Himg, (detectionsByImage_position _ _ _ Hlt). done.
Qed.

(** C6: with no image the component renders nothing; otherwise the index
    it renders with is below [imageCount], is [0] whenever the stored
    index is [imageCount] or more, and addresses the image displayed. *)
Theorem DetectionResult_safeIndex (StringToNumber : string -> float)
    (selectedIndex : nat) (detections : list Detection)
    (images : list UploadedImage) :
  (length images = 0%nat ->
   DetectionResult StringToNumber selectedIndex detections images = None) /\
  ((0 < length images)%nat ->
   exists view,
     DetectionResult StringToNumber selectedIndex detections images = Some view /\
     safeIndex view = resolve selectedIndex (length images) /\
     (safeIndex view < length images)%nat /\
     (length images <= selectedIndex -> safeIndex view = 0)%nat /\
     (selectedIndex < length images -> safeIndex view = selectedIndex)%nat /\
     images !! safeIndex view = Some (currentImage view)).
Proof.
  split.
  - intros E. unfold DetectionResult. by rewrite E.
  - intros Hn.
    destruct (DetectionResult_Some StringToNumber selectedIndex detections images Hn)
      as (img & Himg & ->).
    eexists. split; [done|]. cbn [safeIndex currentImage].
    repeat split; try done.
    + by apply resolve_lt.
    + unfold resolve. destruct (Nat.leb_spec (length images) selectedIndex); lia.
    + unfold resolve. destruct (Nat.leb_spec (length images) selectedIndex); lia.
Qed.

Lemma DetectionResult_safeIndex_witness :
  DetectionResult noNumericString 5 [holesAt1] [] = None /\
  exists view,
    DetectionResult noNumericString 5 [holesAt1] threeImages = Some view /\
    safeIndex view = resolve 5 (length threeImages) /\
    (safeIndex view < length threeImages)%nat /\
    (length threeImages <= 5 -> safeIndex view = 0)%nat /\
    (5 < length threeImages -> safeIndex view = 5)%nat /\
    threeImages !! safeIndex view = Some (currentImage view).
Proof.
  split.
  - apply (DetectionResult_safeIndex noNumericString 5 [holesAt1] []). reflexivity.
  - apply (DetectionResult_safeIndex noNumericString 5 [holesAt1] threeImages).
    simpl. lia.
Defined.

(** The stored index settles once the effect has run. *)
Lemma reconcile_settles sel n :
  (0 < n)%nat -> (reconcile sel n < n)%nat /\ resolve (reconcile sel n) n = reconcile sel n.
Proof.
  intros Hn. unfold reconcile, resolve.
  destruct (Nat.leb_spec n sel) as [H|H].
  - destruct (Nat.leb_spec n 0); [lia | done].
  - destruct (Nat.leb_spec n sel); [lia | done].
Qed.

(** ** How an index in a string is read *)








(** ** Records the range check rejects *)



(** What [parseInt] makes of some strings. *)
Lemma parseInt_examples :
  parseInt "1" = ofZ 1 /\ parseInt " 12px" = ofZ 12 /\ parseInt "-3" = ofZ (-3) /\
  parseInt "0x1f" = ofZ 31 /\ parseInt "1.5" = ofZ 1 /\
  parseInt "abc" = NaN /\ parseInt "" = NaN.
Proof. repeat split; num_eq. Qed.




(** ** The keys of the grouping *)

Lemma one_and_half_not_integer : ~ isInteger (decimal 15 1).
Proof.
  intros [z H]. injection H as H. apply Qred_eq_iff in H.
  unfold Qeq, inject_Z in H. cbn in H. lia.
Qed.

(** C4, as stated, fails: with three images, a record whose native index
    is [1.5] adds the key [1.5] to the keys [0], [1], [2]. *)
Lemma detectionsByImage_extra_key :
  decimal 15 1 ∈ dom (detectionsByImage [holesAtOneAndHalf] threeImages) /\
  dom (detectionsByImage [holesAtOneAndHalf] threeImages)
    <> ({[ ofNat 0; ofNat 1; ofNat 2 ]} : gset number).
Proof.
  assert (Hin : decimal 15 1 ∈ dom (detectionsByImage [holesAtOneAndHalf] threeImages)).
  { apply elem_of_dom. exists [holesAtOneAndHalf]. vm_compute. reflexivity. }
  split; [done|]. intros E. rewrite E in Hin.
  apply elem_of_union in Hin as [Hin|Hin]; [apply elem_of_union in Hin as [Hin|Hin]|];
    apply elem_of_singleton in Hin;
    apply one_and_half_not_integer; rewrite Hin; eexists; reflexivity.
Qed.

Lemma detectionsByImage_key_inRange detections images k :
  is_Some (detectionsByImage detections images !! k) ->
  inRange k (length images) = true.
Proof.
  intros [(i & Hi & ->)|(d & _ & Hr & <-)]%detectionsByImage_key; [|done].
  by apply inRange_ofNat.
Qed.

Lemma detectionsByImage_key_origin detections images k :
  is_Some (detectionsByImage detections images !! k) ->
  (exists i, (i < length images)%nat /\ k = ofNat i) \/
  (exists d, d ∈ detections /\ imageIndex d = IdxNum k).
Proof.
  intros Hk.
  destruct (detectionsByImage_key _ _ _ Hk) as [?|(d & Hd & Hr & Hidx)]; [by left|].
  unfold indexOf in Hidx. destruct (imageIndex d) as [x|str] eqn:E.
  - subst x. right. eauto.
  - left. apply inRange_integer; [exact (detectionsByImage_key_inRange _ _ _ Hk)|].
    destruct (parseInt_integer str) as [Hnan|Hint]; [|congruence].
    unfold indexOf in Hr. rewrite E, Hnan in Hr. discriminate.
Qed.

(** C4 (amended): every position below [imageCount] is a key; every key
    passes the range check; a key is such a position or the native index
    of a record of the batch; and a key that is an integer is such a
    position.  So the keys beyond the positions are exactly the native,
    non-integer indices that pass the range check. *)
Theorem detectionsByImage_keys (detections : list Detection)
    (images : list UploadedImage) :
  (forall i, (i < length images)%nat ->
     is_Some (detectionsByImage detections images !! ofNat i)) /\
  (forall k, is_Some (detectionsByImage detections images !! k) ->
     inRange k (length images) = true) /\
  (forall k, is_Some (detectionsByImage detections images !! k) ->
     (exists i, (i < length images)%nat /\ k = ofNat i) \/
     (exists d, d ∈ detections /\ imageIndex d = IdxNum k)) /\
  (forall k, is_Some (detectionsByImage detections images !! k) ->
     isInteger k -> exists i, (i < length images)%nat /\ k = ofNat i).
Proof.
  repeat split.
  - intros i Hi. rewrite detectionsByImage_position by done. eauto.
  - apply detectionsByImage_key_inRange.
  - apply detectionsByImage_key_origin.
  - intros k Hk Hint.
    apply inRange_integer; [exact (detectionsByImage_key_inRange _ _ _ Hk) | done].
Qed.

Lemma detectionsByImage_keys_witness :
  (forall i, (i < length threeImages)%nat ->
     is_Some (detectionsByImage [holesAt1; holesAtOneAndHalf] threeImages !! ofNat i)) /\
  (forall k, is_Some (detectionsByImage [holesAt1; holesAtOneAndHalf] threeImages !! k) ->
     inRange k (length threeImages) = true) /\
  (forall k, is_Some (detectionsByImage [holesAt1; holesAtOneAndHalf] threeImages !! k) ->
     (exists i, (i < length threeImages)%nat /\ k = ofNat i) \/
     (exists d, d ∈ [holesAt1; holesAtOneAndHalf] /\ imageIndex d = IdxNum k)) /\
  (forall k, is_Some (detectionsByImage [holesAt1; holesAtOneAndHalf] threeImages !! k) ->
     isInteger k -> exists i, (i < length threeImages)%nat /\ k = ofNat i).
Proof.
  exact (detectionsByImage_keys [holesAt1; holesAtOneAndHalf] threeImages).
Defined.

(** With no native index that is a fraction, the keys are exactly the
    positions [0 .. imageCount - 1]. *)
Lemma detectionsByImage_keys_exact (detections : list Detection)
    (images : list UploadedImage) :
  (forall d x, d ∈ detections -> imageIndex d = IdxNum x -> x = NaN \/ isInteger x) ->
  forall k, k ∈ dom (detectionsByImage detections images)
            <-> exists i, (i < length images)%nat /\ k = ofNat i.
Proof.
  intros Hall k. rewrite elem_of_dom. split.
  - intros Hk. pose proof (detectionsByImage_key_inRange _ _ _ Hk) as Hr.
    destruct (detectionsByImage_key_origin _ _ _ Hk) as [?|(d & Hd & Hidx)]; [done|].
    destruct (Hall d k Hd Hidx) as [->|Hi]; [done|by apply inRange_integer].
  - intros (i & Hi & ->). rewrite detectionsByImage_position by done. eauto.
Qed.

(** C10: only a string index goes through [parseInt].  A native index
    [f] with [0 <= f < imageCount] that is no integer is used as the key
    as it is: the record is in the group under [f], a key that none of
    the image positions has. *)
Theorem detectionsByImage_fractional_key (detections : list Detection)
    (images : list UploadedImage) (d : Detection) (f : number) :
  d ∈ detections ->
  imageIndex d = IdxNum f ->
  inRange f (length images) = true ->
  ~ isInteger f ->
  indexOf d = f /\
  (exists l, detectionsByImage detections images !! f = Some l /\ d ∈ l) /\
  (forall i : nat, f <> ofNat i) /\
  initGroups (length images) !! f = None.
Proof.
  intros Hd Hidx Hr Hfrac.
  assert (E : indexOf d = f) by (unfold indexOf; by rewrite Hidx).
  assert (Hpos : forall i : nat, f <> ofNat i).
  { intros i ->. apply Hfrac. by eexists. }
  repeat split; [done| |done|].
  - rewrite <- E. apply detectionsByImage_accepted; [done | by rewrite E].
  - destruct (initGroups (length images) !! f) eqn:Hinit; [|done].
    apply initGroups_inv in Hinit as [_ (i & _ & ->)]. by destruct (Hpos i).
Qed.

Lemma detectionsByImage_fractional_key_witness :
  indexOf holesAtOneAndHalf = decimal 15 1 /\
  (exists l, detectionsByImage [holesAtOneAndHalf] threeImages !! decimal 15 1
             = Some l /\ holesAtOneAndHalf ∈ l) /\
  (forall i : nat, decimal 15 1 <> ofNat i) /\
  initGroups (length threeImages) !! decimal 15 1 = None.
Proof.
  apply (detectionsByImage_fractional_key [holesAtOneAndHalf] threeImages
           holesAtOneAndHalf (decimal 15 1)).
  - apply list_elem_of_here.
  - reflexivity.
  - reflexivity.
  - exact one_and_half_not_integer.
Defined.

(** ** Records whose box is not numeric *)

(** C3, as stated, fails: the record with the box [[10, 10, "n/a"]] sits
    in the group of its image, and the render pass derives a style from
    it, with [NaN] for width and height. *)
Lemma nonNumeric_box_is_kept :
  detectionsByImage [brokenBox] [sampleImage] !! ofNat 0 = Some [brokenBox] /\
  overlays <$> DetectionResult noNumericString 0 [brokenBox] [sampleImage]
  = Some [ {| top := 1; left := 1; width := nan; height := nan |} ].
Proof. split; vm_compute; reflexivity. Qed.

(** A box needs no entry that is not a number to yield [NaN]: with four
    infinities the differences are [NaN]. *)
Lemma getBoxStyle_infinite_box :
  getBoxStyle noNumericString (box4 infinity infinity infinity infinity)
  = {| top := infinity; left := infinity; width := nan; height := nan |}.
Proof. reflexivity. Qed.

Lemma getBoxStyle_nan (StringToNumber : string -> float)
    (ymin xmin ymax xmax : jsval) :
  let st := getBoxStyle StringToNumber (ymin, xmin, ymax, xmax) in
  (Number StringToNumber ymin = nan -> top st = nan /\ height st = nan) /\
  (Number StringToNumber xmin = nan -> left st = nan /\ width st = nan) /\
  (Number StringToNumber ymax = nan -> height st = nan) /\
  (Number StringToNumber xmax = nan -> width st = nan).
Proof.
  cbv zeta. unfold getBoxStyle.
  split; [|split; [|split]]; intros ->; destruct (_ && _);
    cbn [top left width height];
    by rewrite ?sub_nan_l, ?sub_nan_r, ?mul_nan_l, ?div_nan_l.
Qed.

Lemma detectionsByImage_untyped_thrown (images : list UploadedImage) m
    (after : list (option Detection)) :
  foldl (fun acc entry =>
           map ← acc;
           match entry with
           | None => Throw (Some "TypeError")
           | Some d => mret (addDetection (length images) map d)
           end) (Throw m) after
  = Throw m.
Proof. by induction after as [|entry after IH]. Qed.

Lemma detectionsByImage_untyped_records (images : list UploadedImage)
    (detections : list Detection)
    (map : gmap number (list Detection)) :
  foldl (fun acc entry =>
           map ← acc;
           match entry with
           | None => Throw (Some "TypeError")
           | Some d => mret (addDetection (length images) map d)
           end) (Normal map) (Some <$> detections)
  = Normal (foldl (addDetection (length images)) map detections).
Proof.
  revert map. induction detections as [|d detections IH]; intros map; [done|].
  cbn [fmap list_fmap foldl]. apply IH.
Qed.

Lemma detectionsByImage_untyped_outcome (images : list UploadedImage)
    (entries : list (option Detection)) :
  (exists map, detectionsByImage_untyped entries images = Normal map) \/
  detectionsByImage_untyped entries images = Throw (Some "TypeError").
Proof.
  unfold detectionsByImage_untyped.
  induction entries as [|entry entries IH] using rev_ind; [by left; eexists|].
  rewrite foldl_app. cbn [foldl].
  destruct IH as [[map ->] | ->]; cbn; [|by right].
  destruct entry as [d|]; cbn; [left; by eexists | by right].
Qed.

(** C3 (amended): the grouping never reads the box.  A record whose box
    holds an entry that is no number is grouped by its index like any
    other, the groups being the accepted records in arrival order; when
    its image is the one selected, the render pass derives a style from
    its box; and in that style every field computed from an entry that
    [Number] maps to [NaN] is [NaN].  Errors are not contained either: a
    [box_2d] that cannot be iterated makes the normalizer throw, and an
    entry of the batch that is [undefined] or [null] makes the grouping
    throw; an array of any length and a batch of records never do. *)
Theorem nonNumeric_box_still_grouped (StringToNumber : string -> float)
    (detections : list Detection) (images : list UploadedImage)
    (d : Detection) (ymin xmin ymax xmax : jsval) :
  d ∈ detections ->
  box_2d d = (ymin, xmin, ymax, xmax) ->
  inRange (indexOf d) (length images) = true ->
  let st := getBoxStyle StringToNumber (box_2d d) in
  (exists l, detectionsByImage detections images !! indexOf d = Some l /\ d ∈ l) /\
  (forall k l, detectionsByImage detections images !! k = Some l ->
     l = filter (belongs (length images) k) detections) /\
  (forall selectedIndex,
     indexOf d = ofNat (resolve selectedIndex (length images)) ->
     exists view,
       DetectionResult StringToNumber selectedIndex detections images = Some view /\
       d ∈ currentDefects view /\ st ∈ overlays view) /\
  (is_nan (Number StringToNumber ymin) = true ->
   is_nan (top st) = true /\ is_nan (height st) = true) /\
  (is_nan (Number StringToNumber xmin) = true ->
   is_nan (left st) = true /\ is_nan (width st) = true) /\
  (is_nan (Number StringToNumber ymax) = true -> is_nan (height st) = true) /\
  (is_nan (Number StringToNumber xmax) = true -> is_nan (width st) = true) /\
  getBoxStyle_untyped StringToNumber NotIterable = Throw (Some "TypeError") /\
  (forall entries,
     getBoxStyle_untyped StringToNumber (Entries entries)
     = Normal (getBoxStyle StringToNumber
                 (default VUndefined (entries !! 0%nat),
                  default VUndefined (entries !! 1%nat),
                  default VUndefined (entries !! 2%nat),
                  default VUndefined (entries !! 3%nat)))) /\
  (forall before after,
     detectionsByImage_untyped (before ++ None :: after) images
     = Throw (Some "TypeError")) /\
  detectionsByImage_untyped (Some <$> detections) images
  = Normal (detectionsByImage detections images).
Proof.
  intros Hd Hbox Hr st.
  split; [by apply detectionsByImage_accepted|].
  split; [apply detectionsByImage_group|].
  split.
  { intros sel Hsel.
    destruct (DetectionResult_Some StringToNumber sel detections images
                (inRange_pos _ _ Hr)) as (img & _ & ->).
    eexists. split; [done|]. cbn [currentDefects overlays].
    assert (Hin : d ∈ filter (belongs (length images)
                                (ofNat (resolve sel (length images)))) detections).
    { apply list_elem_of_filter. by repeat split. }
    split; [done|]. apply list_elem_of_In.
    apply (in_map (fun det => getBoxStyle StringToNumber (box_2d det))).
    by apply list_elem_of_In. }
  subst st. rewrite Hbox.
  destruct (getBoxStyle_nan StringToNumber ymin xmin ymax xmax)
    as (Hy0 & Hx0 & Hy1 & Hx1).
  split; [intros [-> ->]%is_nan_spec%Hy0; done|].
  split; [intros [-> ->]%is_nan_spec%Hx0; done|].
  split; [intros ->%is_nan_spec%Hy1; done|].
  split; [intros ->%is_nan_spec%Hx1; done|].
  split; [done|]. split; [done|]. split.
  - intros before after.
    destruct (detectionsByImage_untyped_outcome images before) as [[map E] | E];
      unfold detectionsByImage_untyped in *;
      rewrite foldl_app, E; cbn; apply detectionsByImage_untyped_thrown.
  - unfold detectionsByImage_untyped, detectionsByImage.
    exact (detectionsByImage_untyped_records images detections _).
Qed.

Lemma nonNumeric_box_still_grouped_witness :
  let st := getBoxStyle noNumericString (box_2d brokenBox) in
  (exists l, detectionsByImage [holesAt1; brokenBox] threeImages !! indexOf brokenBox
             = Some l /\ brokenBox ∈ l) /\
  (exists view,
     DetectionResult noNumericString 0 [holesAt1; brokenBox] threeImages
     = Some view /\
     brokenBox ∈ currentDefects view /\ st ∈ overlays view) /\
  is_nan (height st) = true /\ is_nan (width st) = true.
Proof.
  destruct (nonNumeric_box_still_grouped noNumericString [holesAt1; brokenBox]
              threeImages brokenBox (VNum 10) (VNum 10) (VStr "n/a") VUndefined)
    as (Hgroup & _ & Hview & _ & _ & Hymax & Hxmax & _).
  - apply list_elem_of_further, list_elem_of_here.
  - reflexivity.
  - reflexivity.
  - split; [exact Hgroup|]. split; [apply (Hview 0%nat); reflexivity|].
    split; [apply Hymax | apply Hxmax]; reflexivity.
Defined.

(** ** Prompt history *)

Lemma isEmpty_false s : isEmpty s = false <-> s <> EmptyString.
Proof. by destruct s. Qed.

Lemma commit_blank currentValue prev :
  trim currentValue = EmptyString -> commit currentValue prev = prev.
Proof. intros E. unfold commit. by rewrite E. Qed.

Lemma commit_duplicate currentValue prev :
  head prev = Some currentValue -> commit currentValue prev = prev.
Proof.
  intros E. unfold commit. destruct (isEmpty _); [done|].
  destruct prev as [|p prev]; [done|]. injection E as ->.
  cbn. by rewrite bool_decide_eq_true_2.
Qed.

Lemma commit_fresh currentValue prev :
  trim currentValue <> EmptyString -> head prev <> Some currentValue ->
  commit currentValue prev = take MAX_HISTORY (currentValue :: prev).
Proof.
  intros Hne%isEmpty_false Hhead. unfold commit. rewrite Hne.
  destruct prev as [|p prev]; [done|].
  cbn [length Nat.ltb Nat.leb andb lookup]. by rewrite bool_decide_eq_false_2.
Qed.

Lemma commit_length currentValue prev :
  (length prev <= MAX_HISTORY)%nat ->
  (length (commit currentValue prev) <= MAX_HISTORY)%nat.
Proof.
  intros H. unfold commit.
  repeat match goal with |- context [if ?b then _ else _] => destruct b end;
    try done; rewrite length_take; lia.
Qed.

Lemma take_app_take {A} (n : nat) (l k : list A) :
  take n (l ++ take n k) = take n (l ++ k).
Proof.
  rewrite !take_app, take_take. do 2 f_equal. lia.
Qed.

Lemma commitAll_chain values prev :
  (length prev <= MAX_HISTORY)%nat ->
  Forall (fun v => trim v <> EmptyString) values ->
  chain (head prev) values ->
  commitAll values prev = take MAX_HISTORY (reverse values ++ prev).
Proof.
  unfold commitAll. revert prev.
  induction values as [|v values IH]; intros prev Hlen Hall Hchain.
  - cbn. by rewrite take_ge.
  - apply Forall_cons_1 in Hall as [Hv Hall]. destruct Hchain as [Hhead Hchain].
    cbn [foldl]. rewrite (commit_fresh v prev Hv Hhead).
    rewrite IH; [| rewrite length_take; lia | done | done].
    rewrite take_app_take, reverse_cons, <- app_assoc. done.
Qed.

Lemma NoDup_chain v values : NoDup (v :: values) -> chain (Some v) values.
Proof.
  revert v. induction values as [|w values IH]; intros v Hnd; [done|].
  pose proof (NoDup_cons_1_1 _ _ Hnd) as Hv.
  apply NoDup_cons_1_2 in Hnd. split.
  - intros [= ->]. apply Hv. by left.
  - by apply IH.
Qed.

Lemma commit_head currentValue prev :
  trim currentValue <> EmptyString ->
  head (commit currentValue prev) = Some currentValue.
Proof.
  intros Hne. destruct (decide (head prev = Some currentValue)) as [E|E].
  - by rewrite commit_duplicate.
  - by rewrite commit_fresh.
Qed.

(** Eleven distinct values that are not blank, committed in turn onto a
    history within the bound, leave the ten newest, newest first. *)
Lemma commitAll_eleven values prev :
  (length prev <= MAX_HISTORY)%nat ->
  length values = 11%nat -> NoDup values ->
  Forall (fun v => trim v <> EmptyString) values ->
  commitAll values prev = take MAX_HISTORY (reverse values).
Proof.
  intros Hlen Hn Hnd Hall.
  destruct values as [|v values]; [done|].
  apply Forall_cons_1 in Hall as [Hv Hall].
  change (commitAll (v :: values) prev) with (commitAll values (commit v prev)).
  rewrite commitAll_chain; [| by apply commit_length | done |].
  - rewrite reverse_cons.
    assert (Hl : length (reverse values) = MAX_HISTORY).
    { rewrite length_reverse. cbn in Hn. unfold MAX_HISTORY. lia. }
    rewrite !take_app_le by lia. done.
  - rewrite commit_head by done. by apply NoDup_chain.
Qed.

(** C7: [commit] does nothing for a value that is blank once trimmed, and
    nothing when the history is not empty and starts with the value;
    otherwise it puts the value in front and keeps the first ten entries.
    So a value that is not blank, committed twice onto the empty history,
    leaves one entry, and eleven distinct such values leave the ten newest,
    newest first. *)
Theorem commit_spec (currentValue : string) (prev : list string) :
  (trim currentValue = EmptyString -> commit currentValue prev = prev) /\
  (trim currentValue <> EmptyString ->
   prev <> [] -> head prev = Some currentValue ->
   commit currentValue prev = prev) /\
  (trim currentValue <> EmptyString ->
   prev = [] \/ head prev <> Some currentValue ->
   commit currentValue prev = take MAX_HISTORY (currentValue :: prev)) /\
  (trim currentValue <> EmptyString ->
   commit currentValue (commit currentValue []) = [currentValue]) /\
  (forall values,
     (length prev <= MAX_HISTORY)%nat ->
     length values = 11%nat -> NoDup values ->
     Forall (fun v => trim v <> EmptyString) values ->
     commitAll values prev = take MAX_HISTORY (reverse values) /\
     length (commitAll values prev) = 10%nat).
Proof.
  repeat split.
  - apply commit_blank.
  - intros _ _. apply commit_duplicate.
  - intros Hne [->|Hhead]; by apply commit_fresh.
  - intros Hne. rewrite (commit_fresh _ [] Hne) by done.
    by apply commit_duplicate.
  - by apply commitAll_eleven.
  - rewrite commitAll_eleven by done.
    rewrite length_take, length_reverse. unfold MAX_HISTORY. lia.
Qed.

Lemma commit_spec_witness :
  commit "   " ["old"] = ["old"] /\
  commit "v1" ["v1"; "old"] = ["v1"; "old"] /\
  commit "v2" ["v1"; "old"] = ["v2"; "v1"; "old"] /\
  commit "v1" (commit "v1" []) = ["v1"] /\
  commitAll elevenValues []
  = ["v11"; "v10"; "v9"; "v8"; "v7"; "v6"; "v5"; "v4"; "v3"; "v2"] /\
  length (commitAll elevenValues []) = 10%nat.
Proof.
  destruct (commit_spec "   " ["old"]) as (Hblank & _).
  destruct (commit_spec "v1" ["v1"; "old"]) as (_ & Hdup & _).
  destruct (commit_spec "v2" ["v1"; "old"]) as (_ & _ & Hfresh & _).
  destruct (commit_spec "v1" []) as (_ & _ & _ & Htwice & Heleven).
  split; [apply Hblank; reflexivity|].
  split; [apply Hdup; [discriminate | discriminate | reflexivity]|].
  split; [apply Hfresh; [discriminate | right; discriminate]|].
  split; [apply Htwice; discriminate|].
  apply (Heleven elevenValues).
  - simpl. lia.
  - reflexivity.
  - refine (bool_decide_unpack _ _). vm_compute. exact I.
  - unfold elevenValues. repeat (apply List.Forall_cons; [discriminate|]).
    apply List.Forall_nil.
Defined.

(** ** Loading the persisted state *)

(** An absent entry, or a store that refuses access, gives the default
    value. *)
Lemma usePersistentString_default localStorage key defaultValue :
  getItem localStorage key = Normal None \/
  (exists m, getItem localStorage key = Throw m) ->
  usePersistentString localStorage key defaultValue = defaultValue.
Proof. unfold usePersistentString. by intros [-> | [m ->]]. Qed.

Lemma usePersistentString_saved items key defaultValue saved :
  items !! key = Some saved ->
  usePersistentString (StorageOf items) key defaultValue = saved.
Proof. unfold usePersistentString. cbn. by intros ->. Qed.

(** The history is empty when the entry is absent or the empty string,
    when the store refuses access, and when [JSON.parse] throws. *)
Lemma useHistory_empty (JSON_parse : string -> completion json)
    localStorage key :
  (exists m, getItem localStorage (key ++ "_history") = Throw m) \/
  getItem localStorage (key ++ "_history") = Normal None \/
  getItem localStorage (key ++ "_history") = Normal (Some EmptyString) \/
  (exists text m, getItem localStorage (key ++ "_history") = Normal (Some text)
                  /\ JSON_parse text = Throw m) ->
  useHistory JSON_parse localStorage key = JArray [].
Proof.
  unfold useHistory.
  intros [[m ->] | [-> | [-> | (text & m & -> & Hp)]]]; try done.
  cbn. destruct (isEmpty text); [done|]. by rewrite Hp.
Qed.

(** C8 fails on a stored text that parses to something other than an
    array of strings: whatever [JSON.parse] returns becomes the history.
    The sibling reader [getLatestFromHistory] checks [Array.isArray] on
    the same entry and falls back. *)
Theorem useHistory_keeps_parsed_value (JSON_parse : string -> completion json)
    (items : gmap string string) (key text : string) (parsed : json) :
  items !! (key ++ "_history")%string = Some text ->
  text <> EmptyString ->
  JSON_parse text = Normal parsed ->
  useHistory JSON_parse (StorageOf items) key = parsed /\
  (asStrings parsed = None ->
   useHistory JSON_parse (StorageOf items) key <> JArray [] /\
   getLatestFromHistory JSON_parse (StorageOf items) key
   = match parsed with
     | JArray (first :: _) => first
     | _ => JString ""
     end).
Proof.
  intros Hitem Hne%isEmpty_false Hp.
  unfold useHistory, getLatestFromHistory. cbn. rewrite Hitem. cbn.
  rewrite Hne, Hp. cbn. split; [done|].
  intros Hshape. split; [by intros -> | by destruct parsed as [| | | |[|]|]].
Qed.

Lemma useHistory_keeps_parsed_value_witness :
  useHistory sampleParse objectInHistory "gemini_analyzer_role" = JObject [] /\
  (asStrings (JObject []) = None ->
   useHistory sampleParse objectInHistory "gemini_analyzer_role" <> JArray [] /\
   getLatestFromHistory sampleParse objectInHistory "gemini_analyzer_role"
   = JString "").
Proof.
  apply (useHistory_keeps_parsed_value sampleParse
           {[ "gemini_analyzer_role_history" := "{}" ]}
           "gemini_analyzer_role" "{}" (JObject [])).
  - reflexivity.
  - discriminate.
  - reflexivity.
Defined.

(** ** A run that fails *)

Lemma trim_keeps_first c s :
  isStrWhiteSpace c = false -> isEmpty (trim (String c s)) = false.
Proof. intros H. unfold trim. cbn [trimStart]. rewrite H. cbn [trimEnd]. by rewrite H. Qed.

Lemma constructFullPrompt_not_blank st :
  isEmpty (trim (constructFullPrompt st)) = false.
Proof. unfold constructFullPrompt. cbn [append]. by apply trim_keeps_first. Qed.

(** C9, as stated, fails: after a run that succeeded with the response
    [[]], a failing run leaves the response text empty and the parsed
    detections unset. *)
Lemma handleSubmit_failure_clears_results :
  let st := handleSubmit sampleParse (Throw (Some "quota exceeded")) afterSuccess in
  responseText afterSuccess = "[]" /\ parsedDetections afterSuccess = Some [] /\
  responseText st = "" /\ parsedDetections st = None /\
  responseText st <> responseText afterSuccess /\
  parsedDetections st <> parsedDetections afterSuccess.
Proof. vm_compute. repeat split; discriminate. Qed.

(** C9 (amended): when the model call fails, the message is shown (or
    [Something went wrong.] when the error has none) and the run is marked
    failed; the response text and the parsed detections are the empty ones
    that the submission set before the call, not those of the run
    before. *)
Theorem handleSubmit_failure (JSON_parse : string -> completion json)
    (message : option string) (st : AppState) :
  let st' := handleSubmit JSON_parse (Throw message) st in
  status st' = ERROR /\
  errorMsg st'
  = Some (match message with
          | Some m => if isEmpty m then "Something went wrong." else m
          | None => "Something went wrong."
          end) /\
  responseText st' = "" /\
  parsedDetections st' = None.
Proof.
  cbv zeta. unfold handleSubmit. rewrite constructFullPrompt_not_blank. done.
Qed.

(** * More properties *)

(** ** The history under [commit] *)

Lemma chain_weaken last v values :
  chain (Some v) values -> chain last values \/ last = head values.
Proof.
  destruct values as [|w values]; [by left|]. intros [_ Hrest]. cbn.
  destruct (decide (last = Some w)) as [->|Hne]; [by right | by left].
Qed.

Lemma chain_take last n values : chain last values -> chain last (take n values).
Proof.
  revert last n. induction values as [|v values IH]; intros last [|n]; try done.
  intros [Hne Hrest]. split; [done | by apply IH].
Qed.

Lemma chain_cons_fresh v prev :
  head prev <> Some v -> chain None prev -> chain None (v :: prev).
Proof.
  intros Hhead Hprev. split; [done|].
  destruct prev as [|p prev]; [done|]. destruct Hprev as [_ Hrest].
  split; [|done]. intros [= ->]. by apply Hhead.
Qed.

Lemma commit_cases currentValue prev :
  commit currentValue prev = prev \/
  (trim currentValue <> EmptyString /\ head prev <> Some currentValue /\
   commit currentValue prev = take MAX_HISTORY (currentValue :: prev)).
Proof.
  destruct (decide (trim currentValue = EmptyString)) as [E|E].
  { left. by apply commit_blank. }
  destruct (decide (head prev = Some currentValue)) as [H|H].
  { left. by apply commit_duplicate. }
  right. repeat split; [done..|]. by apply commit_fresh.
Qed.

(** Whatever is committed, in whatever order, onto the empty history: the
    history holds at most ten entries, none of them blank, and no two
    neighbours are equal. *)
Theorem commitAll_invariants (values : list string) :
  (length (commitAll values []) <= MAX_HISTORY)%nat /\
  Forall (fun v => trim v <> EmptyString) (commitAll values []) /\
  chain None (commitAll values []).
Proof.
  unfold commitAll.
  assert (Hgen : forall prev,
    (length prev <= MAX_HISTORY)%nat /\
    Forall (fun v => trim v <> EmptyString) prev /\ chain None prev ->
    let h := foldl (fun history currentValue => commit currentValue history)
               prev values in
    (length h <= MAX_HISTORY)%nat /\
    Forall (fun v => trim v <> EmptyString) h /\ chain None h).
  { induction values as [|v values IH]; intros prev Hinv; [done|].
    cbn [foldl]. apply IH. destruct Hinv as (Hlen & Hall & Hchain).
    destruct (commit_cases v prev) as [->|(Hv & Hhead & ->)]; [done|].
    split; [|split].
    - rewrite length_take. unfold MAX_HISTORY. lia.
    - apply Forall_take. by constructor.
    - apply chain_take. by apply chain_cons_fresh. }
  apply Hgen. split; [unfold MAX_HISTORY; simpl; lia | done].
Qed.

(** Committing the same value a second time changes nothing, whatever the
    history was. *)
Theorem commit_idempotent (currentValue : string) (prev : list string) :
  commit currentValue (commit currentValue prev) = commit currentValue prev.
Proof.
  destruct (decide (trim currentValue = EmptyString)) as [E|E].
  - by rewrite !commit_blank.
  - apply commit_duplicate. by apply commit_head.
Qed.

Lemma versionNumber_ofZ history idx :
  versionNumber history idx = ofZ (Z.of_nat (length history) - Z.of_nat idx).
Proof.
  unfold versionNumber, ofNat, ofZ, num_sub. f_equal.
  apply Qc_is_canon. qc2q. unfold Qeq, Qplus, Qopp. cbn [Qnum Qden]. lia.
Qed.

(** A commit that adds an entry moves every older entry one place down.
    While the history is not full the version number shown beside an
    entry stays the same; once it holds ten entries the number beside
    every entry that is kept drops by one. *)
Theorem commit_shifts_versions (currentValue : string) (prev : list string)
    (idx : nat) (histText : string) :
  trim currentValue <> EmptyString ->
  head prev <> Some currentValue ->
  (length prev <= MAX_HISTORY)%nat ->
  prev !! idx = Some histText ->
  (S idx < MAX_HISTORY)%nat ->
  commit currentValue prev !! S idx = Some histText /\
  ((length prev < MAX_HISTORY)%nat ->
   versionNumber (commit currentValue prev) (S idx) = versionNumber prev idx) /\
  (length prev = MAX_HISTORY ->
   versionNumber (commit currentValue prev) (S idx)
   = num_sub (versionNumber prev idx) (ofZ 1)).
Proof.
  intros Hv Hhead Hlen Hidx Hs. rewrite (commit_fresh _ _ Hv Hhead).
  pose proof (lookup_lt_Some _ _ _ Hidx) as Hlt.
  split; [|split].
  - rewrite lookup_take_lt by done. done.
  - intros Hfull. rewrite !versionNumber_ofZ, length_take. cbn [length].
    f_equal. unfold MAX_HISTORY in *. lia.
  - intros Hfull. rewrite !versionNumber_ofZ, length_take. cbn [length].
    unfold num_sub, ofZ. f_equal. apply Qc_is_canon. qc2q.
    unfold Qeq, Qplus, Qopp. cbn [Qnum Qden]. unfold MAX_HISTORY in *. lia.
Qed.

Lemma commit_shifts_versions_witness :
  commit "new" ["b"; "a"] !! 2%nat = Some "a" /\
  ((length ["b"; "a"] < MAX_HISTORY)%nat ->
   versionNumber (commit "new" ["b"; "a"]) 2 = versionNumber ["b"; "a"] 1) /\
  (length ["b"; "a"] = MAX_HISTORY ->
   versionNumber (commit "new" ["b"; "a"]) 2
   = num_sub (versionNumber ["b"; "a"] 1) (ofZ 1)).
Proof.
  apply (commit_shifts_versions "new" ["b"; "a"] 1 "a").
  - discriminate.
  - discriminate.
  - unfold MAX_HISTORY. simpl. lia.
  - reflexivity.
  - unfold MAX_HISTORY. lia.
Defined.



(** ** What is stored and what is loaded *)

(** A value written by the effect of [usePersistentString] is the value
    loaded next time, the empty string included; when the store refuses
    access the default is loaded. *)
Theorem persistString_round_trip (localStorage : Storage)
    (key value defaultValue : string) :
  usePersistentString (persistString localStorage key value) key defaultValue
  = match localStorage with
    | StorageDenied => defaultValue
    | StorageOf _ => value
    end.
Proof.
  destruct localStorage as [|items]; [done|].
  unfold usePersistentString, persistString. cbn. by rewrite lookup_insert_eq.
Qed.

Lemma getItem_persistString localStorage key value key' :
  key <> key' ->
  getItem (persistString localStorage key value) key' = getItem localStorage key'.
Proof.
  intros Hne. destruct localStorage as [|items]; [done|].
  cbn. by rewrite lookup_insert_ne.
Qed.

Lemma STORAGE_KEYS_apart key key' :
  key ∈ STORAGE_KEYS -> key' ∈ STORAGE_KEYS ->
  key <> (key' ++ "_history")%string /\
  (key <> key' -> (key ++ "_history")%string <> (key' ++ "_history")%string).
Proof.
  unfold STORAGE_KEYS. rewrite !elem_of_cons, !elem_of_nil.
  intros [->|[->|[->|[->|[]]]]] [->|[->|[->|[->|[]]]]];
    (split; [discriminate | intros H; first [done | discriminate]]).
Qed.

(** The eight entries of the four prompt sections never collide: writing
    the value or the history of one section changes neither the value
    nor the history that any other section loads, and writing a value
    leaves the history of its own section alone, and conversely. *)
Theorem STORAGE_KEYS_independent (JSON_stringify : json -> string)
    (JSON_parse : string -> completion json) (localStorage : Storage)
    (key key' value defaultValue : string) (history : json) :
  key ∈ STORAGE_KEYS -> key' ∈ STORAGE_KEYS ->
  (key <> key' ->
   usePersistentString (persistString localStorage key value) key' defaultValue
   = usePersistentString localStorage key' defaultValue) /\
  usePersistentString (persistHistory JSON_stringify localStorage key history)
    key' defaultValue
  = usePersistentString localStorage key' defaultValue /\
  useHistory JSON_parse (persistString localStorage key value) key'
  = useHistory JSON_parse localStorage key' /\
  (key <> key' ->
   useHistory JSON_parse (persistHistory JSON_stringify localStorage key history) key'
   = useHistory JSON_parse localStorage key').
Proof.
  intros Hk Hk'.
  destruct (STORAGE_KEYS_apart key key' Hk Hk') as [Hvh Hhh].
  destruct (STORAGE_KEYS_apart key' key Hk' Hk) as [Hvh' _].
  unfold usePersistentString, useHistory, persistHistory.
  change (tryCatch (setItem localStorage ?k ?v) (fun _ => localStorage))
    with (persistString localStorage k v).
  repeat split.
  - intros Hne. by rewrite getItem_persistString.
  - by rewrite getItem_persistString.
  - by rewrite getItem_persistString.
  - intros Hne. rewrite getItem_persistString; [done | by apply Hhh].
Qed.

Lemma STORAGE_KEYS_independent_witness :
  (STORAGE_KEYS_ROLE <> STORAGE_KEYS_FORMAT ->
   usePersistentString (persistString objectInHistory STORAGE_KEYS_ROLE "r")
     STORAGE_KEYS_FORMAT "d"
   = usePersistentString objectInHistory STORAGE_KEYS_FORMAT "d") /\
  usePersistentString
    (persistHistory (fun _ => "[]") objectInHistory STORAGE_KEYS_ROLE (JArray []))
    STORAGE_KEYS_FORMAT "d"
  = usePersistentString objectInHistory STORAGE_KEYS_FORMAT "d" /\
  useHistory sampleParse (persistString objectInHistory STORAGE_KEYS_ROLE "r")
    STORAGE_KEYS_FORMAT
  = useHistory sampleParse objectInHistory STORAGE_KEYS_FORMAT /\
  (STORAGE_KEYS_ROLE <> STORAGE_KEYS_FORMAT ->
   useHistory sampleParse
     (persistHistory (fun _ => "[]") objectInHistory STORAGE_KEYS_ROLE (JArray []))
     STORAGE_KEYS_FORMAT
   = useHistory sampleParse objectInHistory STORAGE_KEYS_FORMAT).
Proof.
  apply (STORAGE_KEYS_independent (fun _ => "[]") sampleParse objectInHistory
           STORAGE_KEYS_ROLE STORAGE_KEYS_FORMAT "r" "d" (JArray [])).
  - apply list_elem_of_here.
  - do 3 apply list_elem_of_further. apply list_elem_of_here.
Defined.

(** [getLatestFromHistory] returns the first entry of what [useHistory]
    loads from the same store, and the empty string when that is not an
    array with an entry. *)
Theorem getLatestFromHistory_head (JSON_parse : string -> completion json)
    (localStorage : Storage) (key : string) :
  getLatestFromHistory JSON_parse localStorage key
  = match useHistory JSON_parse localStorage key with
    | JArray (first :: _) => first
    | _ => JString ""
    end.
Proof.
  unfold getLatestFromHistory, useHistory.
  destruct (getItem localStorage (key ++ "_history")) as [[text|]|m]; cbn; try done.
  destruct (isEmpty text); [done|].
  destruct (JSON_parse text) as [parsed|m]; cbn; [|done].
  by destruct parsed as [| | | |[|]|].
Qed.

(** ** More on the grouping *)

Lemma groupedCount_insert (map : gmap number (list Detection)) k l :
  groupedCount (<[k := l]> map)
  = (length l + groupedCount map - length (default [] (map !! k)))%nat.
Proof.
  assert (Hcomm : forall (m : gmap number (list Detection)) j1 j2 z1 z2 y,
    j1 <> j2 -> m !! j1 = Some z1 -> m !! j2 = Some z2 ->
    (length z1 + (length z2 + y) = length z2 + (length z1 + y))%nat).
  { intros. lia. }
  unfold groupedCount. destruct (map !! k) as [l0|] eqn:E; cbn.
  - rewrite <- insert_delete_eq.
    rewrite map_fold_insert_L; [|by apply Hcomm | by rewrite lookup_delete_eq].
    rewrite (map_fold_delete_L _ _ k l0 map); [lia | by apply Hcomm | done].
  - rewrite map_fold_insert_L; [lia | by apply Hcomm | done].
Qed.

Lemma groupedCount_lookup (map : gmap number (list Detection)) k l :
  map !! k = Some l -> (length l <= groupedCount map)%nat.
Proof.
  intros E. unfold groupedCount.
  rewrite (map_fold_delete_L _ _ k l map); [lia | intros; lia | done].
Qed.

Lemma addDetection_insert n (map : gmap number (list Detection)) d :
  inRange (indexOf d) n = true ->
  addDetection n map d
  = <[indexOf d := default [] (map !! indexOf d) ++ [d]]> map.
Proof.
  intros Hr. apply map_eq. intros k. rewrite addDetection_lookup.
  destruct (decide (belongs n k d)) as [[_ <-]|Hb].
  - by rewrite lookup_insert_eq.
  - rewrite lookup_insert_ne; [done|]. intros E. apply Hb. by split.
Qed.

Lemma addDetection_rejected n (map : gmap number (list Detection)) d :
  inRange (indexOf d) n = false -> addDetection n map d = map.
Proof. intros Hr. unfold addDetection. by rewrite Hr. Qed.

Lemma groupedCount_initGroups n : groupedCount (initGroups n) = 0%nat.
Proof.
  induction n as [|n IH]; [done|].
  rewrite initGroups_S, groupedCount_insert, IH.
  by destruct (initGroups n !! ofNat n) as [l|] eqn:E;
    [apply initGroups_inv in E as [-> _]|].
Qed.

Lemma groupedCount_foldl n detections (map : gmap number (list Detection)) :
  groupedCount (foldl (addDetection n) map detections)
  = (groupedCount map
     + length (filter (fun d => inRange (indexOf d) n = true) detections))%nat.
Proof.
  revert map. induction detections as [|d detections IH]; intros map; cbn [foldl].
  - rewrite filter_nil. cbn [length]. lia.
  - rewrite IH, filter_cons.
    destruct (decide (inRange (indexOf d) n = true)) as [Hr|Hr].
    + rewrite (addDetection_insert _ _ _ Hr), groupedCount_insert, length_app.
      cbn [length].
      assert (length (default [] (map !! indexOf d)) <= groupedCount map)%nat; [|lia].
      destruct (map !! indexOf d) as [l|] eqn:E; cbn; [|lia].
      by apply (groupedCount_lookup _ _ _ E).
    + apply not_true_is_false in Hr. by rewrite (addDetection_rejected _ _ _ Hr).
Qed.

(** No record is lost or doubled: the groups together hold as many
    records as the batch has records that pass the range check. *)
Theorem detectionsByImage_count (detections : list Detection)
    (images : list UploadedImage) :
  groupedCount (detectionsByImage detections images)
  = length (filter (fun d => inRange (indexOf d) (length images) = true) detections).
Proof.
  unfold detectionsByImage.
  by rewrite groupedCount_foldl, groupedCount_initGroups.
Qed.

Lemma inRange_mono idx n n' :
  (n <= n')%nat -> inRange idx n = true -> inRange idx n' = true.
Proof.
  intros Hle. unfold inRange. rewrite !andb_true_iff. intros [H0 Hn]. split; [done|].
  apply num_lt_Num in Hn as (a & b & -> & Hb & Hlt). apply num_lt_Num.
  exists a, (Q2Qc (inject_Z (Z.of_nat n'))). split; [done|]. split; [done|].
  injection Hb as <-. eapply Qclt_le_trans; [done|]. apply ofZ_le. lia.
Qed.

Lemma initGroups_lookup_inRange n n' k :
  (n <= n')%nat -> inRange k n = true ->
  initGroups n !! k = initGroups n' !! k.
Proof.
  intros Hle Hr.
  destruct (initGroups n' !! k) as [l|] eqn:E'.
  - apply initGroups_inv in E' as [-> (i & Hi & ->)].
    apply initGroups_position. by apply inRange_ofNat.
  - destruct (initGroups n !! k) as [l|] eqn:E; [|done].
    apply initGroups_inv in E as [-> (i & Hi & ->)].
    rewrite initGroups_position in E' by lia. done.
Qed.

Lemma detectionsByImage_fewer_images detections images images' k :
  (length images' <= length images)%nat ->
  inRange k (length images') = true ->
  detectionsByImage detections images' !! k = detectionsByImage detections images !! k.
Proof.
  intros Hle Hr. unfold detectionsByImage. rewrite !foldl_addDetection_lookup.
  rewrite (initGroups_lookup_inRange _ _ _ Hle Hr).
  assert (E : filter (belongs (length images') k) detections
              = filter (belongs (length images) k) detections); [|by rewrite E].
  apply list_filter_iff. intros d. unfold belongs. split.
  - intros [H1 H2]. split; [|done]. by apply (inRange_mono _ _ _ Hle).
  - intros [_ H2]. split; [|done]. by rewrite H2.
Qed.

Lemma filterOutIndex_delete {A} from index (prev : list A) :
  filterOutIndex from index prev
  = if (from <=? index)%nat then delete (index - from)%nat prev else prev.
Proof.
  revert from. induction prev as [|x prev IH]; intros from.
  { cbn. by destruct (from <=? index)%nat. }
  cbn [filterOutIndex]. rewrite IH.
  destruct (Nat.eqb_spec from index) as [->|Hne].
  - destruct (Nat.leb_spec (S index) index) as [?|_]; [lia|].
    destruct (Nat.leb_spec index index) as [_|?]; [|lia].
    by rewrite Nat.sub_diag.
  - destruct (Nat.leb_spec from index) as [Hle|Hgt].
    + destruct (Nat.leb_spec (S from) index) as [_|?]; [|lia].
      replace (index - from)%nat with (S (index - S from)) by lia. done.
    + destruct (Nat.leb_spec (S from) index) as [?|_]; [lia | done].
Qed.

Lemma handleRemoveImage_delete index (prev : list UploadedImage) :
  handleRemoveImage index prev = delete index prev.
Proof.
  unfold handleRemoveImage. rewrite filterOutIndex_delete. cbn.
  by rewrite Nat.sub_0_r.
Qed.

(** [handleRemoveImage] takes out the image at [index] and nothing else:
    the images before it stay in place, those after it move up by one,
    and an [index] past the end removes nothing. *)
Theorem handleRemoveImage_lookup (index : nat) (prev : list UploadedImage) :
  (forall i, (i < index)%nat -> handleRemoveImage index prev !! i = prev !! i) /\
  (forall i, (index <= i)%nat -> handleRemoveImage index prev !! i = prev !! S i) /\
  ((index < length prev)%nat ->
   length (handleRemoveImage index prev) = (length prev - 1)%nat) /\
  ((length prev <= index)%nat -> handleRemoveImage index prev = prev).
Proof.
  rewrite handleRemoveImage_delete.
  repeat split.
  - intros i Hi. by apply list_lookup_delete_lt.
  - intros i Hi. by apply list_lookup_delete_ge.
  - intros Hlt. rewrite length_delete; [lia|]. by apply lookup_lt_is_Some_2.
  - intros Hge. rewrite delete_take_drop, take_ge, drop_ge by lia.
    by rewrite app_nil_r.
Qed.

Lemma handleRemoveImage_lookup_witness :
  (forall i, (i < 1)%nat ->
     handleRemoveImage 1 threeImages !! i = threeImages !! i) /\
  (forall i, (1 <= i)%nat ->
     handleRemoveImage 1 threeImages !! i = threeImages !! S i) /\
  ((1 < length threeImages)%nat ->
   length (handleRemoveImage 1 threeImages) = (length threeImages - 1)%nat) /\
  ((length threeImages <= 1)%nat -> handleRemoveImage 1 threeImages = threeImages).
Proof. exact (handleRemoveImage_lookup 1 threeImages). Defined.

(** The detections are not renumbered when an image is removed.  Whichever
    image goes, the groups of the positions that remain are the ones
    those positions had before, and the records of the former last
    position are in no group. *)
Theorem detectionsByImage_after_remove (detections : list Detection)
    (images : list UploadedImage) (index : nat) :
  (index < length images)%nat ->
  (forall i, (i < length images - 1)%nat ->
     detectionsByImage detections (handleRemoveImage index images) !! ofNat i
     = detectionsByImage detections images !! ofNat i) /\
  (forall d k l,
     indexOf d = ofNat (length images - 1) ->
     detectionsByImage detections (handleRemoveImage index images) !! k = Some l ->
     d ∉ l).
Proof.
  intros Hlt.
  assert (Hlen : length (handleRemoveImage index images) = (length images - 1)%nat).
  { rewrite handleRemoveImage_delete, length_delete; [lia|].
    by apply lookup_lt_is_Some_2. }
  split.
  - intros i Hi. apply detectionsByImage_fewer_images; [lia|].
    apply inRange_ofNat. lia.
  - intros d k l Hidx Hl%detectionsByImage_group Hin. subst l.
    apply list_elem_of_filter in Hin as [[Hr _] _].
    rewrite Hidx, Hlen in Hr. apply inRange_ofNat in Hr. lia.
Qed.

Lemma detectionsByImage_after_remove_witness :
  (forall i, (i < length threeImages - 1)%nat ->
     detectionsByImage [holesAt1] (handleRemoveImage 0 threeImages) !! ofNat i
     = detectionsByImage [holesAt1] threeImages !! ofNat i) /\
  (forall d k l,
     indexOf d = ofNat (length threeImages - 1) ->
     detectionsByImage [holesAt1] (handleRemoveImage 0 threeImages) !! k = Some l ->
     d ∉ l).
Proof.
  apply (detectionsByImage_after_remove [holesAt1] threeImages 0). simpl. lia.
Defined.

(** ** What is rendered *)

(** With no image every record of the batch is dropped, and with an empty
    batch every image has an empty group and nothing else is a key. *)
Theorem detectionsByImage_edges (detections : list Detection)
    (images : list UploadedImage) :
  detectionsByImage detections [] = ∅ /\
  (forall k l, detectionsByImage [] images !! k = Some l <->
     l = [] /\ exists i, (i < length images)%nat /\ k = ofNat i) /\
  (forall idx, defectCount [] images idx = 0%nat).
Proof.
  split; [|split].
  - apply map_eq. intros k. unfold detectionsByImage.
    rewrite foldl_addDetection_lookup, lookup_empty. cbn.
    destruct (filter (belongs 0 k) detections) as [|d l] eqn:E; [done|].
    assert (Hd : d ∈ filter (belongs 0 k) detections) by (rewrite E; by left).
    apply list_elem_of_filter in Hd as [[Hr%inRange_pos _] _]. lia.
  - intros k l. split; [apply initGroups_inv|].
    intros [-> (i & Hi & ->)]. by apply initGroups_position.
  - intros idx. unfold defectCount.
    destruct (detectionsByImage [] images !! ofNat idx) as [l|] eqn:E; [|done].
    by apply initGroups_inv in E as [-> _].
Qed.

Lemma position_filter n (i : nat) (detections : list Detection) :
  (i < n)%nat ->
  filter (belongs n (ofNat i)) detections
  = filter (fun d => indexOf d = ofNat i) detections.
Proof.
  intros Hi. apply list_filter_iff. intros d. unfold belongs. split.
  - by intros [_ ?].
  - intros E. split; [|done]. rewrite E. by apply inRange_ofNat.
Qed.

(** The defects listed for the image on display are the records of the
    batch whose resolved index is the position of that image, in arrival
    order, with one overlay each; the count on its thumbnail is their
    number; and a record whose index is no integer is listed for no
    image. *)
Theorem DetectionResult_currentDefects (StringToNumber : string -> float)
    (selectedIndex : nat) (detections : list Detection)
    (images : list UploadedImage) (view : View) :
  DetectionResult StringToNumber selectedIndex detections images = Some view ->
  currentDefects view
  = filter (fun d => indexOf d = ofNat (safeIndex view)) detections /\
  length (overlays view) = length (currentDefects view) /\
  defectCount detections images (safeIndex view) = length (currentDefects view) /\
  (forall d, ~ isInteger (indexOf d) -> d ∉ currentDefects view).
Proof.
  intros Hview.
  assert (Hn : (0 < length images)%nat).
  { destruct images; [discriminate | simpl; lia]. }
  destruct (DetectionResult_Some StringToNumber selectedIndex detections images Hn)
    as (img & _ & E).
  rewrite E in Hview. injection Hview as <-. cbn [currentDefects overlays safeIndex].
  pose proof (resolve_lt selectedIndex _ Hn) as Hlt.
  rewrite (position_filter _ _ _ Hlt).
  split; [done|]. split; [by rewrite length_map|]. split.
  - unfold defectCount. rewrite (detectionsByImage_position _ _ _ Hlt).
    by rewrite (position_filter _ _ _ Hlt).
  - intros d Hfrac [E' _]%list_elem_of_filter. apply Hfrac. rewrite E'. by eexists.
Qed.

Lemma DetectionResult_currentDefects_witness :
  exists view,
    DetectionResult noNumericString 1 [holesAt1; holesAtOneAndHalf] threeImages
    = Some view /\
    currentDefects view
    = filter (fun d => indexOf d = ofNat (safeIndex view))
        [holesAt1; holesAtOneAndHalf] /\
    length (overlays view) = length (currentDefects view) /\
    defectCount [holesAt1; holesAtOneAndHalf] threeImages (safeIndex view)
    = length (currentDefects view) /\
    (forall d, ~ isInteger (indexOf d) -> d ∉ currentDefects view).
Proof.
  eexists. split; [reflexivity|].
  apply (DetectionResult_currentDefects noNumericString 1
           [holesAt1; holesAtOneAndHalf] threeImages).
  reflexivity.
Defined.

(** The reset of the stored index by the effect changes nothing on
    screen: the render pass with the reset index is the render pass with
    the stale one, and a second reset is no reset. *)
Theorem DetectionResult_reconcile (StringToNumber : string -> float)
    (selectedIndex : nat) (detections : list Detection)
    (images : list UploadedImage) :
  DetectionResult StringToNumber (reconcile selectedIndex (length images))
    detections images
  = DetectionResult StringToNumber selectedIndex detections images /\
  reconcile (reconcile selectedIndex (length images)) (length images)
  = reconcile selectedIndex (length images).
Proof.
  assert (E : resolve (reconcile selectedIndex (length images)) (length images)
              = resolve selectedIndex (length images)).
  { unfold resolve, reconcile.
    destruct (Nat.leb_spec (length images) selectedIndex) as [H|H].
    - by destruct (length images <=? 0)%nat.
    - destruct (Nat.leb_spec (length images) selectedIndex); [lia | done]. }
  split.
  - unfold DetectionResult. by rewrite E.
  - exact E.
Qed.

(** *** Hovering *)

Lemma pretty_N_go_hasDash x s : hasDash (pretty_N_go x s) = hasDash s.
Proof.
  revert s. induction (N.lt_wf_0 x) as [x _ IH]; intros s.
  assert (x = 0 \/ 0 < x)%N as [->|Hpos] by lia.
  - by rewrite pretty_N_go_0.
  - rewrite pretty_N_go_step by done. rewrite IH by (by apply N.div_lt).
    cbn. unfold pretty_N_char. by repeat case_match.
Qed.

Lemma pretty_nat_hasDash (n : nat) : hasDash (pretty n) = false.
Proof.
  unfold pretty, pretty_nat, pretty, pretty_N.
  destruct (decide _); [done|]. by rewrite pretty_N_go_hasDash.
Qed.

Lemma dash_split a b a' b' :
  hasDash a = false -> hasDash a' = false ->
  (a ++ "-" ++ b)%string = (a' ++ "-" ++ b')%string -> a = a' /\ b = b'.
Proof.
  revert a'. induction a as [|c a IH]; intros [|c' a']; cbn.
  - intros _ _ H. injection H as H. simpl in H. by subst.
  - intros _ [Hc _]%orb_false_elim H. injection H as H _. by subst.
  - intros [Hc _]%orb_false_elim _ H. injection H as H _. by subst.
  - intros [_ Ha]%orb_false_elim [_ Ha']%orb_false_elim H.
    injection H as Hc H. subst. destruct (IH _ Ha Ha' H) as [-> ->]. done.
Qed.

(** The identifier shared by an overlay and its card names one detection
    of one image: hovering the card of defect [dIdx] of image
    [safeIndex] highlights that overlay and no other, and nothing is
    highlighted when no card is hovered. *)
Theorem isHovered_exactly (safeIndex dIdx safeIndex' dIdx' : nat) :
  (isHovered (Some (uniqueId safeIndex dIdx)) safeIndex' dIdx' = true
   <-> safeIndex = safeIndex' /\ dIdx = dIdx') /\
  isHovered None safeIndex' dIdx' = false.
Proof.
  split; [|done]. unfold isHovered. rewrite bool_decide_eq_true. split.
  - intros [= H]. unfold uniqueId in H.
    apply dash_split in H as [H1 H2]; try apply pretty_nat_hasDash.
    split; by apply (inj pretty).
  - by intros [-> ->].
Qed.

(** ** Confidence display *)

(** The four helpers always speak of the same tier: red and HIGH, orange
    and MEDIUM, or yellow and LOW.  A larger confidence never gets a
    lower tier, and a confidence that is no number is LOW. *)
Theorem confidence_tiers (c1 c2 : number) :
  ((getConfidenceLabel c1 = "HIGH CONFIDENCE" /\
    getConfidenceBorder c1 = "border-red-500" /\
    getConfidenceBadge c1 = "bg-red-500 text-white" /\
    getConfidenceColor c1
    = "text-red-400 border-red-500/50 bg-red-500/10 shadow-[0_0_10px_rgba(248,113,113,0.3)]")
   \/
   (getConfidenceLabel c1 = "MEDIUM CONFIDENCE" /\
    getConfidenceBorder c1 = "border-orange-500" /\
    getConfidenceBadge c1 = "bg-orange-500 text-white" /\
    getConfidenceColor c1 = "text-orange-400 border-orange-500/50 bg-orange-500/10")
   \/
   (getConfidenceLabel c1 = "LOW CONFIDENCE" /\
    getConfidenceBorder c1 = "border-yellow-500" /\
    getConfidenceBadge c1 = "bg-yellow-500 text-white" /\
    getConfidenceColor c1 = "text-yellow-400 border-yellow-500/50 bg-yellow-500/10")) /\
  (num_le c1 c2 = true ->
   (getConfidenceLabel c1 = "HIGH CONFIDENCE" ->
    getConfidenceLabel c2 = "HIGH CONFIDENCE") /\
   (getConfidenceLabel c2 = "LOW CONFIDENCE" ->
    getConfidenceLabel c1 = "LOW CONFIDENCE")) /\
  getConfidenceLabel NaN = "LOW CONFIDENCE".
Proof.
  split; [|split; [|done]].
  - unfold getConfidenceLabel, getConfidenceBorder, getConfidenceBadge,
      getConfidenceColor.
    destruct (num_ge c1 (decimal 85 2)); [by left|].
    destruct (num_ge c1 (decimal 6 1)); [by right; left | by right; right].
  - intros (a & b & -> & -> & Hab)%num_le_Num.
    unfold getConfidenceLabel, num_ge, num_le, decimal.
    repeat case_bool_decide; try done; intros; exfalso; qc2q; lra.
Qed.

Lemma confidence_tiers_witness :
  getConfidenceLabel (decimal 95 2) = "HIGH CONFIDENCE" /\
  getConfidenceLabel (decimal 3 1) = "LOW CONFIDENCE".
Proof.
  split.
  - destruct (confidence_tiers (decimal 9 1) (decimal 95 2)) as (_ & H & _).
    apply H; reflexivity.
  - destruct (confidence_tiers (decimal 3 1) (decimal 5 1)) as (_ & H & _).
    apply H; reflexivity.
Defined.

(** The percentage at every confidence of three decimals: a computation
    on binary64 values. *)
Lemma checkPercentage_everywhere : forallFrom 1001 0 checkPercentage = true.
Proof. vm_compute. reflexivity. Qed.

(** For a confidence written with up to three decimals between 0 and 1
    the percentage shown is a whole number from 0 to 100, at most half a
    point away from a hundred times the decimal.  A decimal that ends in
    5 goes either way: [0.285] is shown as 28 and [0.045] as 5. *)
Theorem formatConfidence_range (k : Z) :
  (0 <= k <= 1000)%Z ->
  (exists z : Z,
     formatConfidence (thousandth k) = ofInt z /\ (0 <= z <= 100)%Z /\
     (-5 <= 10 * z - k <= 5)%Z) /\
  formatConfidence 0.285 = 28%float /\ formatConfidence 0.045 = 5%float.
Proof.
  intros Hk. split; [|split; reflexivity].
  pose proof (forallFrom_spec 1001 0 checkPercentage
                checkPercentage_everywhere k ltac:(lia)) as H.
  unfold checkPercentage in H. cbv zeta in H.
  pose proof (Z.div_mod k 10 ltac:(lia)) as Hdiv.
  pose proof (Z.mod_pos_bound k 10 ltac:(lia)) as Hmod.
  revert H Hdiv Hmod. generalize (k / 10)%Z (k mod 10)%Z. intros q r H Hdiv Hmod.
  apply orb_prop in H as [H|H].
  - apply andb_prop in H as [E Hz]. apply Leibniz.eqb_spec in E.
    apply Z.leb_le in Hz. exists q. split; [done|]. lia.
  - apply andb_prop in H as [H Hz']. apply andb_prop in H as [E Hz].
    apply Leibniz.eqb_spec in E. apply Z.leb_le in Hz, Hz'.
    exists (q + 1)%Z. split; [done|]. lia.
Qed.

Lemma formatConfidence_range_witness :
  exists z : Z,
    formatConfidence 0.9 = ofInt z /\ (0 <= z <= 100)%Z /\
    (-5 <= 10 * z - 900 <= 5)%Z.
Proof.
  destruct (formatConfidence_range 900) as [H _]; [lia|]. exact H.
Defined.

(** ** More on a run *)

Lemma handleSubmit_runs (JSON_parse : string -> completion json) outcome st :
  handleSubmit JSON_parse outcome st = finishRun JSON_parse outcome (beginRun st).
Proof. unfold handleSubmit. by rewrite constructFullPrompt_not_blank. Qed.

(** After a run that got a response, the run is marked successful, the
    response text is the one received and no error is shown; the visual
    view is chosen exactly when detections were parsed, and the raw view
    exactly when none were. *)
Theorem handleSubmit_success (JSON_parse : string -> completion json)
    (text : string) (st : AppState) :
  let st' := handleSubmit JSON_parse (Normal text) st in
  status st' = SUCCESS /\ responseText st' = text /\ errorMsg st' = None /\
  (viewMode st' = visual <-> is_Some (parsedDetections st')) /\
  (viewMode st' = raw <-> parsedDetections st' = None) /\
  (forall elements, JSON_parse text = Normal (JArray elements) ->
     parsedDetections st' = Some elements).
Proof.
  cbv zeta. rewrite handleSubmit_runs. unfold finishRun, parseResponse.
  destruct (JSON_parse text) as [parsed|m]; cbn;
    [destruct parsed as [| | | |elements|members]; cbn;
     [..|destruct (snd <$> List.find _ (rev members))
           as [[| | | |elements|]|]; cbn]|];
    repeat split; try done; eauto;
    try (by intros [? ?]); try (by intros ? [=]); by intros ? [= ->].
Qed.

Lemma handleSubmit_success_witness :
  parsedDetections (handleSubmit sampleParse (Normal "[]") afterSuccess) = Some [].
Proof.
  destruct (handleSubmit_success sampleParse "[]" afterSuccess)
    as (_ & _ & _ & _ & _ & H).
  apply H. reflexivity.
Defined.

(** Whatever the outcome of a run, the four prompts keep their text, each
    prompt that is not blank is the newest entry of its history, a
    history within the bound stays within it, and the images are the
    same. *)
Theorem handleSubmit_commits (JSON_parse : string -> completion json)
    (outcome : completion string) (st : AppState)
    (field : AppState -> PromptField) :
  field ∈ [role; criteria; attributes; format] ->
  let st' := handleSubmit JSON_parse outcome st in
  value (field st') = value (field st) /\
  history (field st') = commit (value (field st)) (history (field st)) /\
  (trim (value (field st)) <> EmptyString ->
   head (history (field st')) = Some (value (field st))) /\
  ((length (history (field st)) <= MAX_HISTORY)%nat ->
   (length (history (field st')) <= MAX_HISTORY)%nat) /\
  images st' = images st.
Proof.
  intros Hfield. cbv zeta. rewrite handleSubmit_runs.
  assert (E : field (finishRun JSON_parse outcome (beginRun st))
              = commitField (field st) /\
              images (finishRun JSON_parse outcome (beginRun st)) = images st).
  { unfold finishRun. destruct outcome as [text|m].
    - destruct (parseResponse JSON_parse text).
      repeat (apply elem_of_cons in Hfield as [->|Hfield]; [done|]).
      by apply elem_of_nil in Hfield.
    - repeat (apply elem_of_cons in Hfield as [->|Hfield]; [done|]).
      by apply elem_of_nil in Hfield. }
  destruct E as [-> ->]. cbn [commitField value history].
  repeat split; try done.
  - apply commit_head.
  - apply commit_length.
Qed.

Lemma handleSubmit_commits_witness :
  let st' := handleSubmit sampleParse (Normal "[]") afterSuccess in
  value (role st') = value (role afterSuccess) /\
  history (role st') = commit (value (role afterSuccess)) (history (role afterSuccess)) /\
  (trim (value (role afterSuccess)) <> EmptyString ->
   head (history (role st')) = Some (value (role afterSuccess))) /\
  ((length (history (role afterSuccess)) <= MAX_HISTORY)%nat ->
   (length (history (role st')) <= MAX_HISTORY)%nat) /\
  images st' = images afterSuccess.
Proof.
  apply (handleSubmit_commits sampleParse (Normal "[]") afterSuccess role).
  apply list_elem_of_here.
Defined.

(** The service never lets an error through without a message, so the
    fallback text of [handleSubmit] is not shown for a failed call: the
    message is the one of the error, or [Failed to generate content] when
    it has none, or the one of the [TypeError] raised in the [catch] when
    the call failed with [undefined] or [null].  A response without text
    counts as the empty list of detections. *)
Theorem generateContentWithGemini_submit (JSON_parse : string -> completion json)
    (TypeError_message : string) (st : AppState) :
  TypeError_message <> EmptyString ->
  (forall message,
     errorMsg (handleSubmit JSON_parse
                 (generateContentWithGemini TypeError_message (Rejected message)) st)
     = Some (match message with
             | Some m => if isEmpty m then "Failed to generate content" else m
             | None => "Failed to generate content"
             end)) /\
  errorMsg (handleSubmit JSON_parse
              (generateContentWithGemini TypeError_message RejectedNullish) st)
  = Some TypeError_message /\
  (forall outcome message,
     generateContentWithGemini TypeError_message outcome = Throw message ->
     exists m, message = Some m /\ m <> EmptyString) /\
  (forall text,
     text = None \/ text = Some EmptyString ->
     responseText (handleSubmit JSON_parse
                     (generateContentWithGemini TypeError_message (Resolved text)) st)
     = "[]" /\
     (JSON_parse "[]" = Normal (JArray []) ->
      parsedDetections (handleSubmit JSON_parse
                          (generateContentWithGemini TypeError_message
                             (Resolved text)) st)
      = Some [])).
Proof.
  intros Hne. split; [|split; [|split]].
  - intros message. rewrite handleSubmit_runs.
    destruct message as [m|]; cbn; [|done]. by destruct (isEmpty m) eqn:E; [|rewrite E].
  - rewrite handleSubmit_runs. cbn.
    by destruct TypeError_message.
  - intros outcome message H.
    destruct outcome as [[text|]| |[m|]]; cbn in H; try discriminate;
      injection H as <-; eexists; (split; [done|]); try done.
    by destruct m.
  - intros text Htext. rewrite handleSubmit_runs.
    assert (E : generateContentWithGemini TypeError_message (Resolved text)
                = Normal "[]")
      by (by destruct Htext as [-> | ->]).
    rewrite E. unfold finishRun, parseResponse. split.
    + by destruct (tryCatch _ _).
    + intros ->. done.
Qed.

Lemma generateContentWithGemini_submit_witness :
  errorMsg (handleSubmit sampleParse
              (generateContentWithGemini
                 "Cannot read properties of undefined (reading 'message')"
                 RejectedNullish) afterSuccess)
  = Some "Cannot read properties of undefined (reading 'message')" /\
  errorMsg (handleSubmit sampleParse
              (generateContentWithGemini
                 "Cannot read properties of undefined (reading 'message')"
                 (Rejected (Some ""))) afterSuccess)
  = Some "Failed to generate content".
Proof.
  destruct (generateContentWithGemini_submit sampleParse
              "Cannot read properties of undefined (reading 'message')"
              afterSuccess) as (Hfail & Hnullish & _); [discriminate|].
  split; [exact Hnullish | exact (Hfail (Some ""))].
Defined.

(** The debug view shows the request that is sent: as many parts, image
    for image the same MIME type with the data replaced by a placeholder,
    and the prompt as the last part. *)
Theorem debugParts_mirror (prompt : string) (images : list UploadedImage) :
  length (requestParts prompt images) = S (length images) /\
  length (debugParts prompt images) = S (length images) /\
  requestParts prompt images !! length images = Some (TextPart prompt) /\
  debugParts prompt images !! length images = Some (TextPart prompt) /\
  (forall i img, images !! i = Some img ->
     requestParts prompt images !! i
     = Some (InlineData (mimeType img) (base64Data img)) /\
     debugParts prompt images !! i
     = Some (InlineData (mimeType img) "[BASE64_IMAGE_DATA_OMITTED_FOR_DEBUG_VIEW]")).
Proof.
  unfold requestParts, debugParts.
  repeat split.
  - rewrite length_app, length_map. cbn. lia.
  - rewrite length_app, length_map. cbn. lia.
  - rewrite lookup_app_r; rewrite length_map; [|done]. by rewrite Nat.sub_diag.
  - rewrite lookup_app_r; rewrite length_map; [|done]. by rewrite Nat.sub_diag.
  - rewrite lookup_app_l by (rewrite length_map; by eapply lookup_lt_Some).
    change (map ?f images) with (f <$> images).
    by rewrite list_lookup_fmap, H.
  - rewrite lookup_app_l by (rewrite length_map; by eapply lookup_lt_Some).
    change (map ?f images) with (f <$> images).
    by rewrite list_lookup_fmap, H.
Qed.

Lemma debugParts_mirror_witness :
  requestParts "p" threeImages !! 0%nat
  = Some (InlineData (mimeType sampleImage) (base64Data sampleImage)) /\
  debugParts "p" threeImages !! 0%nat
  = Some (InlineData (mimeType sampleImage)
            "[BASE64_IMAGE_DATA_OMITTED_FOR_DEBUG_VIEW]").
Proof.
  destruct (debugParts_mirror "p" threeImages) as (_ & _ & _ & _ & H).
  apply H. reflexivity.
Defined.

(** Adding files is all or nothing: if one of the chosen files cannot be
    read, no image is added and the failure is reported; otherwise the
    images are appended in the order chosen. *)
Theorem handleFileChange_all_or_nothing (processed : list (completion UploadedImage))
    (st : AppState) :
  processed <> [] ->
  (Exists (fun p => exists m, p = Throw m) processed ->
   images (handleFileChange processed st) = images st /\
   errorMsg (handleFileChange processed st) = Some "Failed to process some images.") /\
  (forall processedImages,
     processed = Normal <$> processedImages ->
     images (handleFileChange processed st) = images st ++ processedImages /\
     errorMsg (handleFileChange processed st) = errorMsg st).
Proof.
  intros Hne. unfold handleFileChange.
  assert (Hlen : (0 <? length processed)%nat = true).
  { destruct processed; [done|]. done. }
  rewrite Hlen. split.
  - intros Hex.
    assert (E : exists m, Promise_all processed = Throw m).
    { clear Hne Hlen. induction Hex as [p rest [m ->]|p rest Hex IH].
      - by exists m.
      - destruct IH as [m E]. cbn. destruct p as [a|m']; [|by eexists].
        rewrite E. by eexists. }
    destruct E as [m ->]. done.
  - intros processedImages ->.
    assert (E : Promise_all (Normal <$> processedImages) = Normal processedImages).
    { clear. induction processedImages as [|a l IH]; [done|]. cbn. cbn in IH.
      by rewrite IH. }
    rewrite E. done.
Qed.

Lemma handleFileChange_all_or_nothing_witness :
  (Exists (fun p => exists m, p = Throw m) [Normal sampleImage; Throw None] ->
   images (handleFileChange [Normal sampleImage; Throw None] afterSuccess)
   = images afterSuccess /\
   errorMsg (handleFileChange [Normal sampleImage; Throw None] afterSuccess)
   = Some "Failed to process some images.") /\
  (forall processedImages,
     [Normal sampleImage; Throw None] = Normal <$> processedImages ->
     images (handleFileChange [Normal sampleImage; Throw None] afterSuccess)
     = images afterSuccess ++ processedImages /\
     errorMsg (handleFileChange [Normal sampleImage; Throw None] afterSuccess)
     = errorMsg afterSuccess).
Proof.
  apply (handleFileChange_all_or_nothing [Normal sampleImage; Throw None] afterSuccess).
  discriminate.
Defined.

(** ** The collapsed header of a prompt section *)

Lemma length_substring0 n s :
  String.length (substring0 n s) = Nat.min n (String.length s).
Proof.
  revert s. induction n as [|n IH]; intros [|c s]; cbn; try done.
  by rewrite IH.
Qed.

Lemma length_replaceNewlines s :
  String.length (replaceNewlines s) = String.length s.
Proof. induction s as [|c s IH]; cbn; [done | by rewrite IH]. Qed.

Lemma containsChar_substring0 c n s :
  containsChar c s = false -> containsChar c (substring0 n s) = false.
Proof.
  revert s. induction n as [|n IH]; intros [|c' s]; cbn; try done.
  intros [-> Hs]%orb_false_elim. cbn. by apply IH.
Qed.

Lemma containsChar_replaceNewlines s :
  containsChar (ascii_of_nat 10) (replaceNewlines s) = false.
Proof.
  induction s as [|c s IH]; cbn; [done|]. rewrite IH, orb_false_r.
  destruct (Ascii.eqb_spec c (ascii_of_nat 10)) as [->|Hne]; [done|].
  by apply Ascii.eqb_neq.
Qed.

Lemma replaceNewlines_id s :
  containsChar (ascii_of_nat 10) s = false -> replaceNewlines s = s.
Proof.
  induction s as [|c s IH]; cbn; [done|].
  intros [-> Hs]%orb_false_elim. by rewrite IH.
Qed.

Lemma substring0_all n s : (String.length s <= n)%nat -> substring0 n s = s.
Proof.
  revert s. induction n as [|n IH]; intros [|c s]; cbn; try done; [lia|].
  intros H. rewrite IH; [done | lia].
Qed.

(** The text shown beside a collapsed section is the first thirty code
    units of the prompt, every line break replaced by a space, followed by
    three dots.  The part before the dots never has a line break; the dots
    follow also when nothing was cut, so a prompt of one line of thirty
    code units or fewer is shown as itself and three dots. *)
Theorem collapsedPreview_spec (value : string) :
  exists shown : string,
    collapsedPreview value = (shown ++ "...")%string /\
    String.length shown = Nat.min 30 (String.length value) /\
    containsChar (ascii_of_nat 10) shown = false /\
    ((String.length value <= 30)%nat ->
     containsChar (ascii_of_nat 10) value = false ->
     shown = value).
Proof.
  exists (substring0 30 (replaceNewlines value)).
  split; [done|]. split; [|split].
  - by rewrite length_substring0, length_replaceNewlines.
  - apply containsChar_substring0, containsChar_replaceNewlines.
  - intros Hlen Hnl. rewrite (replaceNewlines_id _ Hnl). by apply substring0_all.
Qed.

Lemma collapsedPreview_spec_witness :
  collapsedPreview "Inspect the welds" = "Inspect the welds...".
Proof.
  destruct (collapsedPreview_spec "Inspect the welds") as (shown & -> & _ & _ & H).
  rewrite H; [reflexivity | simpl; lia | reflexivity].
Defined.

(** ** Reading a file *)

Lemma append_cons c (a b : string) : (String c a ++ b)%string = String c (a ++ b).
Proof. reflexivity. Qed.

Lemma append_nil (b : string) : ("" ++ b)%string = b.
Proof. reflexivity. Qed.

Lemma prefix_cons a p b s :
  String.prefix (String a p) (String b s) = Ascii.eqb a b && String.prefix p s.
Proof.
  cbn [String.prefix]. destruct (ascii_dec a b) as [->|Hne].
  - by rewrite Ascii.eqb_refl.
  - apply Ascii.eqb_neq in Hne. by rewrite Hne.
Qed.

Lemma containsChar_app c a b :
  containsChar c (a ++ b) = containsChar c a || containsChar c b.
Proof.
  induction a as [|c' a IH]; [done|].
  rewrite append_cons. simpl. by rewrite IH, orb_assoc.
Qed.

Lemma append_assoc (a b c : string) : ((a ++ b) ++ c = a ++ (b ++ c))%string.
Proof.
  induction a as [|x a IH]; [done|]. rewrite !append_cons. by rewrite IH.
Qed.

Lemma append_empty_r (a : string) : (a ++ "")%string = a.
Proof. induction a as [|x a IH]; [done|]. rewrite append_cons. by rewrite IH. Qed.

Lemma splitFrom_comma_none piece s :
  containsChar "," s = false -> splitFrom "," 0 piece s = [(piece ++ s)%string].
Proof.
  revert piece. induction s as [|c s IH]; intros piece.
  - intros _. cbn [splitFrom]. by rewrite append_empty_r.
  - cbn [splitFrom containsChar]. intros [Hc Hs]%orb_false_elim.
    rewrite prefix_cons, Ascii.eqb_sym, Hc. cbn [andb].
    rewrite IH by done. by rewrite append_assoc.
Qed.

Lemma splitFrom_comma_first piece a rest :
  containsChar "," a = false ->
  splitFrom "," 0 piece (a ++ "," ++ rest)
  = (piece ++ a)%string :: splitFrom "," 0 EmptyString rest.
Proof.
  revert piece. induction a as [|c a IH]; intros piece.
  - intros _. rewrite append_nil, append_cons, append_nil, append_empty_r.
    cbn [splitFrom]. rewrite prefix_cons, Ascii.eqb_refl. by destruct rest.
  - rewrite append_cons. cbn [splitFrom containsChar].
    intros [Hc Hs]%orb_false_elim.
    rewrite prefix_cons, Ascii.eqb_sym, Hc. cbn [andb].
    rewrite IH by done. by rewrite append_assoc.
Qed.

(** From a data URL [data:<type>;base64,<payload>] whose type and payload
    hold no comma, [processFile] keeps the URL as the preview and takes
    exactly the payload as the data, which is then what the request
    carries for the image; a result without a comma has no data. *)
Theorem processFile_data_url (fileType mediaType payload result : string) :
  (containsChar "," mediaType = false ->
   containsChar "," payload = false ->
   processFile fileType ("data:" ++ mediaType ++ ";base64," ++ payload)
   = Some {| previewUrl := "data:" ++ mediaType ++ ";base64," ++ payload;
             base64Data := payload;
             mimeType := fileType |} /\
   forall prompt img,
     processFile fileType ("data:" ++ mediaType ++ ";base64," ++ payload)
     = Some img ->
     requestParts prompt [img] = [InlineData fileType payload; TextPart prompt]) /\
  (containsChar "," result = false -> processFile fileType result = None).
Proof.
  split.
  - intros Hm Hp.
    assert (E : split "," ("data:" ++ mediaType ++ ";base64," ++ payload)
                = [("data:" ++ mediaType ++ ";base64")%string; payload]).
    { unfold split.
      replace ("data:" ++ mediaType ++ ";base64," ++ payload)%string
        with (("data:" ++ mediaType ++ ";base64") ++ "," ++ payload)%string.
      2:{ by rewrite !append_assoc. }
      rewrite splitFrom_comma_first.
      - rewrite splitFrom_comma_none by done. done.
      - by rewrite !containsChar_app, Hm. }
    unfold processFile. rewrite E. simpl. split; [done|].
    by intros prompt img [= <-].
  - intros Hr. unfold processFile, split.
    by rewrite splitFrom_comma_none.
Qed.

Lemma processFile_data_url_witness :
  (processFile "image/png" ("data:" ++ "image/png" ++ ";base64," ++ "iVBORw0KGgo=")
   = Some {| previewUrl := "data:" ++ "image/png" ++ ";base64," ++ "iVBORw0KGgo=";
             base64Data := "iVBORw0KGgo=";
             mimeType := "image/png" |} /\
   forall prompt img,
     processFile "image/png" ("data:" ++ "image/png" ++ ";base64," ++ "iVBORw0KGgo=")
     = Some img ->
     requestParts prompt [img]
     = [InlineData "image/png" "iVBORw0KGgo="; TextPart prompt]) /\
  processFile "image/png" "not a data URL" = None.
Proof.
  destruct (processFile_data_url "image/png" "image/png" "iVBORw0KGgo="
              "not a data URL") as [Hurl Hnone].
  split; [apply Hurl; reflexivity | apply Hnone; reflexivity].
Defined.

(** ** Markdown *)

Lemma prefix_nil s : String.prefix "" s = true.
Proof. by destruct s. Qed.

Lemma prefix_first_differs a p b s :
  Ascii.eqb a b = false -> String.prefix (String a p) (String b s) = false.
Proof. intros H. by rewrite prefix_cons, H. Qed.

Lemma trim_cons c s :
  isStrWhiteSpace c = false -> trim (String c s) = String c (trimEnd s).
Proof. intros H. unfold trim. cbn [trimStart]. rewrite H. cbn [trimEnd]. by rewrite H. Qed.

Lemma stripFences_word lang rest :
  forallb isWordChar (list_ascii_of_string lang) = true ->
  stripFencesFrom InWord (lang ++ nl ++ rest) = stripFencesFrom Copying rest.
Proof.
  induction lang as [|c lang IH].
  - intros _. done.
  - rewrite append_cons. cbn [list_ascii_of_string forallb stripFencesFrom].
    intros [-> Hl]%andb_prop. by apply IH.
Qed.

Lemma stripFences_copy code rest :
  containsChar "`" code = false ->
  stripFencesFrom Copying (code ++ rest)
  = (code ++ stripFencesFrom Copying rest)%string.
Proof.
  induction code as [|c code IH]; [done|].
  cbn [containsChar]. intros [Hc Hs]%orb_false_elim.
  rewrite !append_cons. cbn [stripFencesFrom].
  rewrite prefix_first_differs by (by rewrite Ascii.eqb_sym).
  by rewrite IH.
Qed.

(** A fenced paragraph, three backticks, a language tag of word
    characters, a line break, code without a backtick, a line break and
    the closing three backticks, is rendered as a code block holding the
    code and the line break after it: the fences and the tag are gone. *)
Theorem renderParagraph_fenced (lang code : string) :
  forallb isWordChar (list_ascii_of_string lang) = true ->
  containsChar "`" code = false ->
  renderParagraph ("```" ++ lang ++ nl ++ code ++ nl ++ "```")
  = Pre (code ++ nl).
Proof.
  intros Hlang Hcode. unfold renderParagraph.
  rewrite !(append_cons "`"), append_nil.
  rewrite !prefix_first_differs by done.
  rewrite trim_cons by reflexivity.
  rewrite !prefix_first_differs by done. cbn [orb].
  rewrite !prefix_cons, !Ascii.eqb_refl, prefix_nil. cbn [andb].
  unfold stripFences. cbn [stripFencesFrom].
  rewrite !prefix_cons, !Ascii.eqb_refl, prefix_nil. cbn [andb].
  rewrite (stripFences_word _ _ Hlang), (stripFences_copy _ _ Hcode).
  rewrite (stripFences_copy nl) by done.
  change (stripFencesFrom Copying "```") with EmptyString.
  by rewrite append_empty_r.
Qed.

Lemma renderParagraph_fenced_witness :
  renderParagraph ("```" ++ "json" ++ nl ++ "[1, 2]" ++ nl ++ "```")
  = Pre ("[1, 2]" ++ nl).
Proof.
  apply (renderParagraph_fenced "json" "[1, 2]"); reflexivity.
Defined.

Lemma splitFrom_no_occurrence sep piece s :
  occurs sep s = false -> splitFrom sep 0 piece s = [(piece ++ s)%string].
Proof.
  revert piece. induction s as [|c s IH]; intros piece Hocc.
  - by rewrite append_empty_r.
  - cbn [occurs] in Hocc. apply orb_false_elim in Hocc as [Hp Hocc].
    cbn [splitFrom]. rewrite Hp, (IH _ Hocc), append_assoc.
    by rewrite append_cons, append_nil.
Qed.

(** A text without an empty line between two paragraphs is rendered as
    one block, the one its only paragraph gives, and the empty text is
    rendered as no block at all. *)
Theorem MarkdownRenderer_single (content : string) :
  MarkdownRenderer "" = [] /\
  (content <> EmptyString -> occurs (nl ++ nl) content = false ->
   MarkdownRenderer content = [renderParagraph content]).
Proof.
  split; [done|]. intros Hne Hocc. unfold MarkdownRenderer, split.
  rewrite (splitFrom_no_occurrence _ _ _ Hocc), append_nil.
  cbn [List.filter]. by destruct content.
Qed.

Lemma MarkdownRenderer_single_witness :
  MarkdownRenderer "No defects found." = [renderParagraph "No defects found."].
Proof.
  destruct (MarkdownRenderer_single "No defects found.") as [_ H].
  apply H; [discriminate | reflexivity].
Defined.

(** ** The keyboard shortcut *)

(** [Enter] with [Ctrl] or [Cmd] always starts a run: the guard against
    an empty prompt never fires, because the full prompt always holds its
    headings, and the handler looks neither at the images nor at the
    status.  Any other key changes nothing. *)
Theorem handleKeyDown_submits (JSON_parse : string -> completion json)
    (key : string) (metaKey ctrlKey : bool) (outcome : completion string)
    (st : AppState) :
  isEmpty (trim (constructFullPrompt st)) = false /\
  (key = "Enter" -> metaKey || ctrlKey = true ->
   handleKeyDown JSON_parse key metaKey ctrlKey outcome st
   = finishRun JSON_parse outcome (beginRun st) /\
   status (handleKeyDown JSON_parse key metaKey ctrlKey outcome st)
   = match outcome with Normal _ => SUCCESS | Throw _ => ERROR end) /\
  (key <> "Enter" \/ metaKey || ctrlKey = false ->
   handleKeyDown JSON_parse key metaKey ctrlKey outcome st = st).
Proof.
  split; [apply constructFullPrompt_not_blank|]. unfold handleKeyDown. split.
  - intros -> ->. cbn [String.eqb Ascii.eqb Bool.eqb andb].
    rewrite handleSubmit_runs. split; [done|].
    unfold finishRun. destruct outcome; [|done].
    by destruct (parseResponse _ _).
  - intros [Hkey | ->]; [|by rewrite andb_false_r].
    apply String.eqb_neq in Hkey. by rewrite Hkey.
Qed.

Lemma handleKeyDown_submits_witness :
  status (handleKeyDown sampleParse "Enter" false true (Throw None) afterSuccess)
  = ERROR.
Proof.
  destruct (handleKeyDown_submits sampleParse "Enter" false true (Throw None)
              afterSuccess) as (_ & H & _).
  apply H; reflexivity.
Defined.
